(** * attila.notifications.sql: the SQL notifier

    A shallow embedding of [src/attila/notifications/sql.py]: the field
    mapping line scanner [_parse_field_mapping_line], the type tables
    [TYPE_MAP] and [TYPE_PARSER_MAP], the parsers [_string_parser] and
    [_null_parser], and the notifier's [__call__].

    Python [str] values are lists of characters.  A character is a code
    point below 256 (Rocq's [ascii]); the classification and case mapping
    below are the Unicode ones restricted to that range.  The built-in
    [int] is modelled on text of any characters.

    The definitions come first, then the facts about them. *)

From Stdlib Require Import ZArith Ascii String List Bool Lia.
From stdpp Require Import base option list fin gmap strings.

Local Open Scope char_scope.
Local Open Scope list_scope.
Local Set Warnings "-register-all".

(** * Definitions *)

(** ** Python strings *)

Abbreviation str := (list ascii).

Definition lit (x : string) : str := list_ascii_of_string x.
Arguments lit x%_string.

Definition code (c : ascii) : nat := nat_of_ascii c.

(** [str.isspace] on one character: TAB..CR, FS..US, SPACE, NEL, NBSP. *)
Definition isspace (c : ascii) : bool :=
  let n := code c in
  (((9 <=? n) && (n <=? 13)) || ((28 <=? n) && (n <=? 32))
   || (n =? 133) || (n =? 160))%nat.

(** [str.lower] on one character: A..Z and the Latin-1 capitals
    (U+00C0..U+00DE except the multiplication sign) move up by 32. *)
Definition lower_char (c : ascii) : ascii :=
  let n := code c in
  if (((65 <=? n) && (n <=? 90))
      || ((192 <=? n) && (n <=? 222) && negb (n =? 215)))%nat
  then ascii_of_nat (n + 32) else c.

Definition lower (s : str) : str := map lower_char s.

Fixpoint dropwhile {A} (p : A -> bool) (l : list A) : list A :=
  match l with
  | [] => []
  | x :: r => if p x then dropwhile p r else l
  end.

Definition lstrip (s : str) : str := dropwhile isspace s.
Definition rstrip (s : str) : str := rev (dropwhile isspace (rev s)).

(** [s.strip()] *)
Definition strip (s : str) : str := rstrip (lstrip s).

(** [s.split()]: the maximal runs of non-whitespace characters, in order.
    [cur] is the run being read. *)
Fixpoint split_from (cur : str) (s : str) : list str :=
  match s with
  | [] => match cur with [] => [] | _ => [cur] end
  | c :: r =>
      if isspace c
      then match cur with [] => split_from [] r | _ => cur :: split_from [] r end
      else split_from (cur ++ [c]) r
  end.

Definition split (s : str) : list str := split_from [] s.

(** Truth value of a string. *)
Definition truthy (s : str) : bool :=
  match s with [] => false | _ => true end.

(** ** Exceptions and results *)

(** The three [assert] statements of the module. *)
Inductive assertion :=
| Malformed_entry (original_line : str)  (* "Malformed field mapping entry:\n%r" *)
| Type_not_in_TYPE_MAP                   (* assert field_type in TYPE_MAP *)
| Not_a_null_token.                      (* the assert of _null_parser *)

Inductive exn :=
| IndexError
| KeyError (key : str)
| ValueError
| SyntaxError
| TypeError
| AssertionError (a : assertion)
| OperationNotSupportedError
| OtherError (name : str)
| Unmodelled.  (* not a Python exception: the input lies outside the part
                  of a Python library function that is modelled here *)

Inductive result (A : Type) :=
| Ok (a : A)
| Err (e : exn).
Arguments Ok {A} a.
Arguments Err {A} e.

(** ** Python values and built-in functions *)

Inductive pyobj :=
| PyNone
| PyBool (b : bool)
| PyInt (z : Z)
| PyStr (s : str)
| PyList (items : list pyobj)
| PySet (elements : list pyobj)
| PyDict (items : list (pyobj * pyobj))
| PyObject (class_name : str) (text : str).
  (* an instance of a class that is not modelled: Decimal, date, datetime *)

Definition is_digit (c : ascii) : bool :=
  ((48 <=? code c) && (code c <=? 57))%nat.

Definition digit_value (c : ascii) : Z := Z.of_nat (code c - 48).

(** The base-10 value of a string of digits, most significant first. *)
Definition decimal_value (acc : Z) (ds : str) : Z :=
  fold_left (fun acc c => (10 * acc + digit_value c)%Z) ds acc.

Module builtins.

(** [int()] reads text of any characters.  A character above U+00FF is
    given together with what the Unicode database says of it, which is all
    that [int()] asks of such a character: whether it is whitespace, and
    which decimal digit it is, if it is one (category Nd). *)
Inductive unicode_class :=
| Decimal_digit (d : fin 10)
| White_space
| Other_class.

Inductive uchar :=
| Latin1 (c : ascii)
| Wide (code_point : N) (class : unicode_class).

Abbreviation text := (list uchar).

Global Instance unicode_class_eq_dec : EqDecision unicode_class.
Proof. solve_decision. Defined.

Global Instance uchar_eq_dec : EqDecision uchar.
Proof. solve_decision. Defined.

(** Whitespace as [int()] sees it: the C [isspace] set below 127 (so not
    FS..US), and the Unicode whitespace above, which [int()] first turns
    into spaces. *)
Definition int_space (c : uchar) : bool :=
  match c with
  | Latin1 a =>
      let n := code a in
      (((9 <=? n) && (n <=? 13)) || (n =? 32) || (n =? 133) || (n =? 160))%nat
  | Wide _ White_space => true
  | Wide _ _ => false
  end.

(** The value of a decimal digit: [0] to [9], and the decimal digits of
    other scripts, which [int()] first turns into these. *)
Definition int_digit (c : uchar) : option Z :=
  match c with
  | Latin1 a => if is_digit a then Some (digit_value a) else None
  | Wide _ (Decimal_digit d) => Some (Z.of_nat (fin_to_nat d))
  | Wide _ _ => None
  end.

Definition is_underscore (c : uchar) : bool := bool_decide (c = Latin1 "_").

(** The digits after the first one: each is a digit, or one underscore
    followed by a digit.  Returns the value, the number of digits read so
    far and the unread text, [None] when an underscore is not followed by
    a digit. *)
Fixpoint int_digits (acc : Z) (n : nat) (s : text) : option (Z * nat * text) :=
  match s with
  | [] => Some (acc, n, [])
  | c :: r =>
      match int_digit c with
      | Some v => int_digits (10 * acc + v)%Z (S n) r
      | None =>
          if is_underscore c then
            match r with
            | d :: r' =>
                match int_digit d with
                | Some v => int_digits (10 * acc + v)%Z (S n) r'
                | None => None
                end
            | [] => None
            end
          else Some (acc, n, s)
      end
  end.

Definition int_sign (s : text) : Z * text :=
  match s with
  | c :: r =>
      if bool_decide (c = Latin1 "+") then (1%Z, r)
      else if bool_decide (c = Latin1 "-") then ((-1)%Z, r)
      else (1%Z, s)
  | [] => (1%Z, s)
  end.

(** The limit on the number of digits of a base-10 string
    ([sys.get_int_max_str_digits()], 4300 unless it is changed): [0] sets
    no limit, and up to 640 digits no limit is looked at.  Interpreters
    without the limit behave as with [0]. *)
Definition exceeds_limit (max_str_digits digits : nat) : bool :=
  ((640 <? digits) && (0 <? max_str_digits) && (max_str_digits <? digits))%nat.

(** [int(s)] for a string [s] (base 10): optional whitespace, an optional
    sign, digits with single underscores between them, optional
    whitespace, and no more digits than the limit allows. *)
Definition int (max_str_digits : nat) (s : text) : result Z :=
  let '(sign, s) := int_sign (dropwhile int_space s) in
  match s with
  | d :: r =>
      match int_digit d with
      | Some v0 =>
          match int_digits v0 1 r with
          | Some (v, digits, rest) =>
              if forallb int_space rest then
                if exceeds_limit max_str_digits digits then Err ValueError
                else Ok (sign * v)%Z
              else Err ValueError
          | None => Err ValueError
          end
      | None => Err ValueError
      end
  | [] => Err ValueError
  end.

End builtins.

(** ** Library functions the notifier calls

    [str.format_map] and [ast.literal_eval] belong to Python,
    [decimal.Decimal] to its standard library, and [parse_bool],
    [parse_date] and [parse_datetime] to [attila.strings], which is not
    among the sources.  The notifier is defined over any such functions
    and the theorems about it hold for all of them.  With them goes the
    interpreter's setting [sys.get_int_max_str_digits()]. *)
Record library := Library {
  int_max_str_digits : nat;
  format_map : str -> gmap str str -> result str;
  literal_eval : str -> result pyobj;
  Decimal : str -> result pyobj;
  parse_bool : str -> result pyobj;
  parse_date : str -> result pyobj;
  parse_datetime : str -> result pyobj
}.

(** ** The type tables and the parsers *)

Inductive LiteralTypes :=
| DATE | DATE_TIME | FLOAT | BOOLEAN | INTEGER | NULL | STRING.

Definition TYPE_MAP : gmap str LiteralTypes :=
  list_to_map
    [ (lit "bool", BOOLEAN);
      (lit "date", DATE);
      (lit "date/time", DATE_TIME);
      (lit "datetime", DATE_TIME);
      (lit "double", FLOAT);
      (lit "float", FLOAT);
      (lit "int", INTEGER);
      (lit "integer", INTEGER);
      (lit "none", NULL);
      (lit "null", NULL);
      (lit "str", STRING);
      (lit "string", STRING) ].

Section Parsers.

Variable L : library.

(** [except (ValueError, SyntaxError)] catches these two and their
    subclasses; every other exception of [literal_eval] propagates. *)
Definition _string_parser (string : str) : result pyobj :=
  match literal_eval L string with
  | Ok (PyStr result) => Ok (PyStr result)
  | Ok _ => Ok (PyStr string)
  | Err ValueError | Err SyntaxError => Ok (PyStr string)
  | Err e => Err e
  end.

Definition _null_parser (string : str) : result pyobj :=
  let string := lower string in
  if bool_decide (string ∈ [lit ""; lit "null"; lit "none"; lit "nil"])
  then Ok PyNone
  else Err (AssertionError Not_a_null_token).

Definition int_parser (string : str) : result pyobj :=
  match builtins.int (int_max_str_digits L) (map builtins.Latin1 string) with
  | Ok z => Ok (PyInt z)
  | Err e => Err e
  end.

Definition TYPE_PARSER_MAP (t : LiteralTypes) : str -> result pyobj :=
  match t with
  | DATE => parse_date L
  | DATE_TIME => parse_datetime L
  | FLOAT => Decimal L
  | BOOLEAN => parse_bool L
  | INTEGER => int_parser
  | NULL => _null_parser
  | STRING => _string_parser
  end.

End Parsers.

(** ** Commands and connections *)

(** [V(value, sql_type)] of sql_dialects. *)
Record literal := V { value : pyobj; sql_type : LiteralTypes }.

Inductive statement := Insert | Update.

(** Modelled from the spec: the command objects of sql_dialects, which is
    not among the sources.  A command carries the table name, the kind of
    operation and one column/value pair per [set], in the order of the
    calls. *)
Record command := Command {
  table : str;
  kind : statement;
  assignments : list (str * literal)
}.

Definition insert (table : str) : command := Command table Insert [].
Definition update (table : str) : command := Command table Update [].
Definition set (c : command) (column : str) (v : literal) : command :=
  Command (table c) (kind c) (assignments c ++ [(column, v)]).

(** A connection is known by the commands it was asked to execute;
    [refuses] tells which [execute] calls raise, given the earlier ones. *)
Record connection := Connection {
  executed : list command;
  refuses : list command -> command -> option exn
}.

(** ** Calls and their effects *)

(** The library calls a notification makes, in order. *)
Inductive call :=
| Call_format_map (template : str)
| Call_parser (t : LiteralTypes) (value_str : str).

Record world := World {
  conn : connection;
  calls : list call
}.

Definition M (A : Type) : Type := world -> world * result A.

Definition ret {A} (a : A) : M A := fun w => (w, Ok a).
Definition raise {A} (e : exn) : M A := fun w => (w, Err e).
Definition bind {A B} (m : M A) (f : A -> M B) : M B :=
  fun w => match m w with
           | (w', Ok a) => f a w'
           | (w', Err e) => (w', Err e)
           end.
Definition lift {A} (c : call) (r : result A) : M A :=
  fun w => (World (conn w) (calls w ++ [c]), r).

Notation "'do' x <- m ; f" := (bind m (fun x => f))
  (at level 10, x name, m at level 100, f at level 200).

(** [connection.execute(command)] *)
Definition execute (c : command) : M unit :=
  fun w =>
    let k := conn w in
    (World (Connection (executed k ++ [c]) (refuses k)) (calls w),
     match refuses k (executed k) c with
     | Some e => Err e
     | None => Ok tt
     end).

(** ** The class [SQLNotifier] *)

Module SQLNotifier.

(** *** [_parse_field_mapping_line] *)

(** The four loop variables of [_parse_field_mapping_line]. *)
Record scan := Scan {
  field_type : str;
  field_name : option str;
  value_template : option str;
  in_brackets : bool
}.

Definition scan_start : scan :=
  {| field_type := []; field_name := None; value_template := None;
     in_brackets := false |}.

(** One iteration of [for char in line]. *)
Definition scan_char (st : scan) (char : ascii) : scan :=
  match value_template st with
  | Some t =>
      Scan (field_type st) (field_name st) (Some (t ++ [char])) (in_brackets st)
  | None =>
      match field_name st with
      | Some n =>
          if negb (in_brackets st) && bool_decide (char = ":") then
            Scan (field_type st) (Some n) (Some []) (in_brackets st)
          else if in_brackets st && bool_decide (char = "]") then
            Scan (field_type st) (Some n) None false
          else if negb (truthy n) && bool_decide (char = "[") then
            Scan (field_type st) (Some n) None true
          else
            Scan (field_type st) (Some (n ++ [char])) None (in_brackets st)
      | None =>
          if isspace char then
            Scan (field_type st) (Some []) None (in_brackets st)
          else
            Scan (field_type st ++ [char]) None None (in_brackets st)
      end
  end.

Definition scan_line (st : scan) (line : str) : scan :=
  fold_left scan_char line st.

(** [if x: x = x.strip()] *)
Definition strip_if_truthy (o : option str) : option str :=
  match o with
  | Some s => if truthy s then Some (strip s) else Some s
  | None => None
  end.

(** The statements after the loop. *)
Definition finish (nullable : bool) (original_line : str) (st : scan)
  : result (bool * str * str * str) :=
  let field_type := lower (strip (field_type st)) in
  let field_name := strip_if_truthy (field_name st) in
  let value_template := strip_if_truthy (value_template st) in
  match field_name, value_template with
  | Some name, Some template =>
      if truthy field_type && truthy name && truthy template
         && negb (in_brackets st)
      then
        match TYPE_MAP !! field_type with
        | Some _ => Ok (nullable, field_type, name, template)
        | None => Err (AssertionError Type_not_in_TYPE_MAP)
        end
      else Err (AssertionError (Malformed_entry (strip original_line)))
  | _, _ => Err (AssertionError (Malformed_entry (strip original_line)))
  end.

(** The statements before the loop: the trimmed line, then the test on the
    first token.  [split line !! 0] is [line.split()[0]]. *)
Definition nullable_prefix (line : str) : result (bool * str) :=
  match split line !! 0%nat with
  | None => Err IndexError
  | Some token =>
      if bool_decide (lower token = lit "nullable")
      then Ok (true, strip (drop 8 line))
      else Ok (false, line)
  end.

Definition _parse_field_mapping_line (line : str)
  : result (bool * str * str * str) :=
  let line := strip line in
  let original_line := line in
  match nullable_prefix line with
  | Err e => Err e
  | Ok (nullable, line) =>
      finish nullable original_line (scan_line scan_start line)
  end.

(** *** [__call__]

    A notifier holds the table name, the validated field mappings and the
    command type; its connection is the one of the world it runs in. *)

Definition field : Type := bool * str * str * str.

Record notifier := Notifier {
  _table : str;
  _fields : list field;
  _command_type : str
}.

(** [nullable and value_str.lower() in ('', 'none', 'null')] *)
Definition null_override (nullable : bool) (value_str : str) : bool :=
  nullable && bool_decide (lower value_str ∈ [lit ""; lit "none"; lit "null"]).

Section Call.

Variable L : library.
Variable kwargs : gmap str str.

(** The body of the loop up to the value: interpolation, the test for an
    explicit null, the parser of the declared type. *)
Definition field_value (f : field) : M literal :=
  let '(nullable, field_type, field_name, value_template) := f in
  do value_str <- lift (Call_format_map value_template)
                       (format_map L value_template kwargs);
  if null_override nullable value_str
  then ret (V PyNone NULL)
  else
    match TYPE_MAP !! field_type with
    | None => raise (KeyError field_type)
    | Some sql_type =>
        do value <- lift (Call_parser sql_type value_str)
                         (TYPE_PARSER_MAP L sql_type value_str);
        ret (V value sql_type)
    end.

(** [for nullable, field_type, field_name, value_template in self._fields] *)
Fixpoint set_fields (fields : list field) (c : command) : M command :=
  match fields with
  | [] => ret c
  | (nullable, field_type, field_name, value_template) :: rest =>
      do v <- field_value (nullable, field_type, field_name, value_template);
      set_fields rest (set c field_name v)
  end.

(** [__call__(self, msg=None, attachments=None, **kwargs)]; [msg] is not
    used by the method. *)
Definition __call__ (self : notifier) (attachments : option pyobj) : M unit :=
  match attachments with
  | Some _ => raise OperationNotSupportedError
  | None =>
      let c := if bool_decide (_command_type self = lit "INSERT")
               then insert (_table self) else update (_table self) in
      do c <- set_fields (_fields self) c;
      execute c
  end.

(** What the parser of type [t] makes of a string, as a literal. *)
Definition parsed (t : LiteralTypes) (value_str : str) : result literal :=
  match TYPE_PARSER_MAP L t value_str with
  | Ok x => Ok (V x t)
  | Err e => Err e
  end.

(** The field's template does not interpolate, or its interpolated string
    is handed to the parser of the declared type and the parser fails. *)
Definition interpolation_fails (f : field) : Prop :=
  exists e, format_map L (f.2) kwargs = Err e.

Definition coercion_fails (f : field) : Prop :=
  let '(nullable, field_type, _, value_template) := f in
  exists value_str sql_type e,
    format_map L value_template kwargs = Ok value_str
    /\ null_override nullable value_str = false
    /\ TYPE_MAP !! field_type = Some sql_type
    /\ TYPE_PARSER_MAP L sql_type value_str = Err e.

End Call.

End SQLNotifier.

Import SQLNotifier.

(** ** Shapes of lines, names and numbers used in the statements *)

(** The optional keyword in front of the type: nothing, or the eight
    letters of [nullable] in any letter case followed by whitespace. *)
Definition keyword_prefix (p : str) : bool :=
  match p with
  | [] => true
  | _ => bool_decide (lower (take 8 p) = lit "nullable")
         && truthy (drop 8 p) && forallb isspace (drop 8 p)
  end.

(** The two name shapes of the specification's grammar: a bare token
    without whitespace and brackets, and one bracketed region whose
    contents hold no closing bracket. *)
Definition bare_token (region : str) : bool :=
  truthy region && negb (existsb isspace region)
  && negb (bool_decide ("[" ∈ region)) && negb (bool_decide ("]" ∈ region)).

Definition bracketed_region (region : str) : bool :=
  match region with
  | "[" :: r =>
      match rev r with
      | "]" :: c => negb (bool_decide ("]" ∈ c))
      | _ => false
      end
  | _ => false
  end.

(** The characters below 256 that may occur in a string [int] accepts. *)
Definition int_alphabet (c : ascii) : bool :=
  is_digit c || builtins.int_space (builtins.Latin1 c)
  || bool_decide (c = "+") || bool_decide (c = "-") || bool_decide (c = "_").

(** The sign a sign prefix stands for. *)
Definition sign_value (sg : builtins.text) : Z :=
  if bool_decide (sg = [builtins.Latin1 "-"]) then (-1)%Z else 1%Z.

(** The base-10 value of decimal digits of any script, most significant
    first. *)
Definition text_value (acc : Z) (ds : builtins.text) : Z :=
  fold_left (fun acc c => (10 * acc + default 0 (builtins.int_digit c))%Z)
    ds acc.

(** A run of decimal digits that is not empty. *)
Definition digit_run (ds : builtins.text) : Prop :=
  ds <> [] /\ Forall (fun c => is_Some (builtins.int_digit c)) ds.

(** Runs of digits, each after one underscore. *)
Definition underscored (more : list builtins.text) : builtins.text :=
  concat (map (cons (builtins.Latin1 "_")) more).

(** The strings [int] accepts, as its documentation describes them:
    whitespace, an optional sign, a run of decimal digits, any number of
    further runs of digits each after one underscore, whitespace; of
    digits, no more than the limit allows.  The number is the base-10
    value of the digits, with the sign. *)
Definition int_literal (max_str_digits : nat) (t : builtins.text) (z : Z)
  : Prop :=
  exists ws1 sg ds more ws2,
    t = ws1 ++ sg ++ ds ++ underscored more ++ ws2
    /\ forallb builtins.int_space ws1 = true
    /\ sg ∈ [[]; [builtins.Latin1 "+"]; [builtins.Latin1 "-"]]
    /\ Forall digit_run (ds :: more)
    /\ forallb builtins.int_space ws2 = true
    /\ builtins.exceeds_limit max_str_digits (length (ds ++ concat more))
       = false
    /\ z = (sign_value sg * text_value 0 (ds ++ concat more))%Z.

(** ** Python's [str.format_map] and [ast.literal_eval] on simple inputs

    Two instances of the library functions, used to run the notifier on
    concrete notifications.  Each follows CPython on the inputs it covers
    and answers [Unmodelled] elsewhere. *)

Module str_methods.

(** A replacement field is read up to its closing brace.  Covered: field
    names without [!], [:], [.] and [[] (no conversion, format
    specification, attribute or index). *)
Definition beyond_field_name (c : ascii) : bool :=
  bool_decide (c ∈ ["!"; ":"; "."; "["]).

(** [field] holds the name read so far inside a replacement field. *)
Fixpoint format_from (kwargs : gmap str str) (field : option str)
    (out : str) (s : str) : result str :=
  match s with
  | [] =>
      match field with
      | None => Ok out
      | Some _ => Err ValueError   (* expected '}' before end of string *)
      end
  | c :: r =>
      match field with
      | Some name =>
          if bool_decide (c = "}") then
            if forallb is_digit name
            then Err ValueError    (* Format string contains positional fields *)
            else match kwargs !! name with
                 | Some v => format_from kwargs None (out ++ v) r
                 | None => Err (KeyError name)
                 end
          else if bool_decide (c = "{") then
            Err ValueError         (* unexpected '{' in field name *)
          else if beyond_field_name c then Err Unmodelled
          else format_from kwargs (Some (name ++ [c])) out r
      | None =>
          if bool_decide (c = "{") then
            match r with
            | "{" :: r' => format_from kwargs None (out ++ ["{"]) r'
            | _ => format_from kwargs (Some []) out r
            end
          else if bool_decide (c = "}") then
            match r with
            | "}" :: r' => format_from kwargs None (out ++ ["}"]) r'
            | _ => Err ValueError  (* Single '}' encountered in format string *)
            end
          else format_from kwargs None (out ++ [c]) r
      end
  end.

Definition format_map (template : str) (kwargs : gmap str str) : result str :=
  format_from kwargs None [] template.

End str_methods.

Module ast.

Inductive token :=
| TInt (digits : str)
| TBadInt                       (* leading zeros *)
| TStr (s : str)
| TLBrack | TRBrack | TLBrace | TRBrace | TComma.

(** Result of reading the source: a value, a syntax error, or a source
    beyond what is covered. *)
Inductive outcome (A : Type) :=
| Parsed (a : A)
| Bad
| Beyond.
Arguments Parsed {A} a.
Arguments Bad {A}.
Arguments Beyond {A}.

Definition push {A} (t : A) (o : outcome (list A)) : outcome (list A) :=
  match o with
  | Parsed l => Parsed (t :: l)
  | Bad => Bad
  | Beyond => Beyond
  end.

Definition int_token (ds : str) : token :=
  match ds with
  | "0" :: _ :: _ =>
      if forallb (fun c => bool_decide (c = "0")) ds then TInt ds else TBadInt
  | _ => TInt ds
  end.

Definition is_quote (c : ascii) : bool :=
  bool_decide (c = "'") || bool_decide (c = "034").

Inductive mode :=
| Idle
| InInt (digits : str)
| InStr (quote : ascii) (body : str).

(** Covered: decimal integers, strings in single or double quotes without
    backslash, the brackets of lists, sets and the empty dict, commas and
    spaces. *)
Fixpoint lex (m : mode) (s : str) : outcome (list token) :=
  match s with
  | [] =>
      match m with
      | Idle => Parsed []
      | InInt ds => Parsed [int_token ds]
      | InStr _ _ => Bad         (* unterminated string literal *)
      end
  | c :: r =>
      match m with
      | InStr q body =>
          if bool_decide (c = q) then push (TStr body) (lex Idle r)
          else if bool_decide (c = "\") then Beyond
          else lex (InStr q (body ++ [c])) r
      | InInt ds =>
          if is_digit c then lex (InInt (ds ++ [c])) r
          else if bool_decide (c = " ") then push (int_token ds) (lex Idle r)
          else if bool_decide (c = ",") then
            push (int_token ds) (push TComma (lex Idle r))
          else if bool_decide (c = "]") then
            push (int_token ds) (push TRBrack (lex Idle r))
          else if bool_decide (c = "}") then
            push (int_token ds) (push TRBrace (lex Idle r))
          else Beyond
      | Idle =>
          if is_digit c then lex (InInt [c]) r
          else if is_quote c then
            match r with
            | c1 :: c2 :: _ =>
                if bool_decide (c1 = c) && bool_decide (c2 = c)
                then Beyond      (* triple-quoted string *)
                else lex (InStr c []) r
            | _ => lex (InStr c []) r
            end
          else if bool_decide (c = " ") then lex Idle r
          else if bool_decide (c = "[") then push TLBrack (lex Idle r)
          else if bool_decide (c = "]") then push TRBrack (lex Idle r)
          else if bool_decide (c = "{") then push TLBrace (lex Idle r)
          else if bool_decide (c = "}") then push TRBrace (lex Idle r)
          else if bool_decide (c = ",") then push TComma (lex Idle r)
          else Beyond
      end
  end.

(** Not covered: subscripts (a [[] after a value), tuples (a comma outside
    brackets) and nesting deeper than ten. *)
Fixpoint beyond (after_value : bool) (depth : nat) (ts : list token) : bool :=
  match ts with
  | [] => false
  | t :: r =>
      match t with
      | TInt _ | TBadInt | TStr _ => beyond true depth r
      | TLBrack => after_value || (10 <=? depth)%nat || beyond false (S depth) r
      | TLBrace => (10 <=? depth)%nat || beyond false (S depth) r
      | TRBrack | TRBrace => beyond true (pred depth) r
      | TComma => (depth =? 0)%nat || beyond false depth r
      end
  end.

Inductive node :=
| NInt (z : Z)
| NStr (s : str)
| NList (elts : list node)
| NSet (elts : list node)
| NDict.                        (* the empty dict display *)

(** Adjacent string literals are concatenated. *)
Fixpoint strings (acc : str) (ts : list token) : str * list token :=
  match ts with
  | TStr s :: r => strings (acc ++ s) r
  | _ => (acc, ts)
  end.

Definition closes (square : bool) (ts : list token) : bool :=
  match ts with
  | TRBrack :: _ => square
  | TRBrace :: _ => negb square
  | _ => false
  end.

Fixpoint expr (fuel : nat) (ts : list token) : outcome (node * list token) :=
  match fuel with
  | O => Beyond
  | S fuel =>
      match ts with
      | TInt ds :: r => Parsed (NInt (decimal_value 0 ds), r)
      | TStr s :: r => let '(s', r') := strings s r in Parsed (NStr s', r')
      | TLBrack :: TRBrack :: r => Parsed (NList [], r)
      | TLBrack :: r =>
          match items fuel true r with
          | Parsed (l, r') => Parsed (NList l, r')
          | Bad => Bad
          | Beyond => Beyond
          end
      | TLBrace :: TRBrace :: r => Parsed (NDict, r)
      | TLBrace :: r =>
          match items fuel false r with
          | Parsed (l, r') => Parsed (NSet l, r')
          | Bad => Bad
          | Beyond => Beyond
          end
      | _ => Bad
      end
  end
with items (fuel : nat) (square : bool) (ts : list token)
  : outcome (list node * list token) :=
  match fuel with
  | O => Beyond
  | S fuel =>
      match expr fuel ts with
      | Parsed (x, TComma :: r) =>
          if closes square r then Parsed ([x], tail r)
          else match items fuel square r with
               | Parsed (l, r') => Parsed (x :: l, r')
               | Bad => Bad
               | Beyond => Beyond
               end
      | Parsed (x, r) => if closes square r then Parsed ([x], tail r) else Bad
      | Bad => Bad
      | Beyond => Beyond
      end
  end.

Definition parse (s : str) : outcome node :=
  match lex Idle s with
  | Parsed ts =>
      if beyond false 0 ts then Beyond
      else match expr (2 * length ts + 2) ts with
           | Parsed (n, []) => Parsed n
           | Parsed (_, _ :: _) => Bad
           | Bad => Bad
           | Beyond => Beyond
           end
  | Bad => Bad
  | Beyond => Beyond
  end.

Definition hashable (v : pyobj) : bool :=
  match v with
  | PyNone | PyBool _ | PyInt _ | PyStr _ => true
  | _ => false
  end.

(** The evaluation of the parsed literal: the elements of a set must be
    hashable.  A set is kept as its elements in source order. *)
Fixpoint convert (n : node) : result pyobj :=
  let fix convert_all (l : list node) : result (list pyobj) :=
    match l with
    | [] => Ok []
    | x :: r =>
        match convert x, convert_all r with
        | Ok v, Ok vs => Ok (v :: vs)
        | Err e, _ => Err e
        | _, Err e => Err e
        end
    end in
  match n with
  | NInt z => Ok (PyInt z)
  | NStr s => Ok (PyStr s)
  | NDict => Ok (PyDict [])
  | NList l =>
      match convert_all l with
      | Ok vs => Ok (PyList vs)
      | Err e => Err e
      end
  | NSet l =>
      match convert_all l with
      | Ok vs => if forallb hashable vs then Ok (PySet vs) else Err TypeError
      | Err e => Err e
      end
  end.

Definition is_letter (c : ascii) : bool :=
  (((65 <=? code c) && (code c <=? 90))
   || ((97 <=? code c) && (code c <=? 122)) || (code c =? 95))%nat.

Definition is_identifier (s : str) : bool :=
  match s with
  | c :: r => is_letter c && forallb (fun c => is_letter c || is_digit c) r
  | [] => false
  end.

Definition keywords : list str :=
  map lit
    ["and"; "as"; "assert"; "async"; "await"; "break"; "class"; "continue";
     "def"; "del"; "elif"; "else"; "except"; "finally"; "for"; "from";
     "global"; "if"; "import"; "in"; "is"; "lambda"; "nonlocal"; "not";
     "or"; "pass"; "raise"; "return"; "try"; "while"; "with"; "yield";
     "__peg_parser__"]%string.

Definition printable (c : ascii) : bool :=
  ((32 <=? code c) && (code c <=? 126))%nat.

(** [ast.literal_eval(s)].  Covered: sources of at most 4300 printable
    ASCII characters that do not start with a space and are a name other
    than a keyword, or are built from the tokens of [lex].  A name other
    than [None], [True] and [False] is a malformed node ([ValueError]). *)
Definition literal_eval (s : str) : result pyobj :=
  if negb (forallb printable s) || (4300 <? length s)%nat then Err Unmodelled
  else if is_identifier s then
    if bool_decide (s = lit "None") then Ok PyNone
    else if bool_decide (s = lit "True") then Ok (PyBool true)
    else if bool_decide (s = lit "False") then Ok (PyBool false)
    else if bool_decide (s ∈ keywords) then Err Unmodelled
    else Err ValueError
  else
    match s with
    | " " :: _ => Err Unmodelled
    | _ =>
        match parse s with
        | Parsed n => convert n
        | Bad => Err SyntaxError
        | Beyond => Err Unmodelled
        end
    end.

End ast.

(** [decimal.Decimal] and the parsers of [attila.strings] are left out. *)
Definition unmodelled : str -> result pyobj := fun _ => Err Unmodelled.

Definition cpython : library :=
  {| int_max_str_digits := 4300;
     format_map := str_methods.format_map;
     literal_eval := ast.literal_eval;
     Decimal := unmodelled;
     parse_bool := unmodelled;
     parse_date := unmodelled;
     parse_datetime := unmodelled |}.

(** ** A notifier to run *)

Definition events : notifier :=
  {| _table := lit "Events";
     _fields := [ (false, lit "string", lit "Name", lit "{name}");
                  (true, lit "integer", lit "Count", lit "{count}") ];
     _command_type := lit "INSERT" |}.

(** A connection that has executed nothing yet and refuses nothing. *)
Definition fresh : world :=
  World (Connection [] (fun _ _ => None)) [].

Definition notification (name count : string) : gmap str str :=
  {[ lit "name" := lit name; lit "count" := lit count ]}.

(** ** More of Python's [str] *)

(** [str.upper] on one character.  The capital of the sharp s is [SS];
    the capitals of the micro sign and of y with diaeresis lie above code
    point 255, which is [None] here. *)
Definition upper_char (c : ascii) : option str :=
  let n := code c in
  if (((97 <=? n) && (n <=? 122))
      || ((224 <=? n) && (n <=? 254) && negb (n =? 247)))%nat
  then Some [ascii_of_nat (n - 32)]
  else if (n =? 223)%nat then Some (lit "SS")
  else if ((n =? 181) || (n =? 255))%nat then None
  else Some [c].

(** [s.upper()], or [None] when a character of it lies above 255. *)
Fixpoint upper (s : str) : option str :=
  match s with
  | [] => Some []
  | c :: r =>
      match upper_char c, upper r with
      | Some u, Some v => Some (u ++ v)
      | _, _ => None
      end
  end.

(** The line boundaries of [str.splitlines]: LF, VT, FF, CR, FS, GS, RS
    and NEL. *)
Definition is_linebreak (c : ascii) : bool :=
  let n := code c in
  (((10 <=? n) && (n <=? 13)) || ((28 <=? n) && (n <=? 30)) || (n =? 133))%nat.

(** [s.splitlines()]: CR LF is one boundary, and a boundary at the end of
    the text starts no further line. *)
Fixpoint splitlines_from (cur : str) (s : str) : list str :=
  match s with
  | [] => match cur with [] => [] | _ => [cur] end
  | c :: r =>
      if is_linebreak c then
        cur :: match r with
               | d :: r' =>
                   if bool_decide (c = "013") && bool_decide (d = "010")
                   then splitlines_from [] r'
                   else splitlines_from [] r
               | [] => splitlines_from [] r
               end
      else splitlines_from (cur ++ [c]) r
  end.

Definition splitlines (s : str) : list str := splitlines_from [] s.

(** An [assert] without message, at a place [assertion] does not name. *)
Definition bare_assertion : exn := OtherError (lit "AssertionError").

(** ** [SQLNotifier.__init__] and the field list of [load_config_section] *)

Module SQLNotifierSetup.

Section Init.

(** [verify_type(value, type, non_empty, allow_none)] of
    [attila.exceptions] and the [__init__] of the base classes are not
    among the sources: any behaviour is allowed for them. *)
Variable verify_type : pyobj -> string -> bool -> bool -> result unit.
Variable super_init : result unit.

Definition check {A} (r : result unit) (k : result A) : result A :=
  match r with
  | Ok _ => k
  | Err e => Err e
  end.

(** The loop over [fields] that builds [entries]. *)
Fixpoint entries (fields : list field) : result (list field) :=
  match fields with
  | [] => Ok []
  | (nullable, field_type, field_name, value_template) :: rest =>
      check (verify_type (PyBool nullable) "bool" false false)
        (check (verify_type (PyStr field_type) "str" true false)
           (check (verify_type (PyStr field_name) "str" true false)
              (check (verify_type (PyStr value_template) "str" false false)
                 (let field_type := lower field_type in
                  match TYPE_MAP !! field_type with
                  | None => Err (AssertionError Type_not_in_TYPE_MAP)
                  | Some _ =>
                      match entries rest with
                      | Ok es =>
                          Ok ((nullable, field_type, field_name,
                               value_template) :: es)
                      | Err e => Err e
                      end
                  end))))
  end.

(** [None] stands for INSERT; a given command type is put in upper case
    and must then be INSERT or UPDATE. *)
Definition normalized (command_type : option str) : result str :=
  match command_type with
  | None => Ok (lit "INSERT")
  | Some s =>
      match upper s with
      | Some u =>
          if bool_decide (u ∈ [lit "INSERT"; lit "UPDATE"]) then Ok u
          else Err bare_assertion
      | None => Err bare_assertion
      end
  end.

Definition __init__ (connection : pyobj) (table : str) (fields : list field)
    (command_type : option str) : result notifier :=
  check (verify_type connection "sql_connection" false false)
    (check (verify_type
              (match command_type with Some s => PyStr s | None => PyNone end)
              "str" true true)
       (check (verify_type (PyStr table) "str" true false)
          (match normalized command_type with
           | Err e => Err e
           | Ok command_type =>
               match entries fields with
               | Err e => Err e
               | Ok es =>
                   check super_init (Ok (Notifier table es command_type))
               end
           end))).

End Init.

(** The list comprehension of [load_config_section]: the lines of the
    field mapping that are not blank, parsed in order. *)
Fixpoint parse_lines (lines : list str) : result (list field) :=
  match lines with
  | [] => Ok []
  | line :: rest =>
      if truthy (strip line) then
        match _parse_field_mapping_line line with
        | Ok f =>
            match parse_lines rest with
            | Ok fs => Ok (f :: fs)
            | Err e => Err e
            end
        | Err e => Err e
        end
      else parse_lines rest
  end.

Definition field_list (field_mapping : str) : result (list field) :=
  parse_lines (splitlines field_mapping).

End SQLNotifierSetup.

(** ** [LogNotifier] (notifications/logs.py) *)

Module LogNotifier.

(** [str.isdigit] on one character: the ten digits and the superscripts
    one, two and three. *)
Definition isdigit_char (c : ascii) : bool :=
  let n := code c in
  (is_digit c || (n =? 178) || (n =? 179) || (n =? 185))%nat.

(** [s.isdigit()] *)
Definition isdigit (s : str) : bool := truthy s && forallb isdigit_char s.

(** [s.split(sep)] for a separator of one character. *)
Fixpoint split_on (sep : ascii) (cur : str) (s : str) : list str :=
  match s with
  | [] => [cur]
  | c :: r =>
      if bool_decide (c = sep) then cur :: split_on sep [] r
      else split_on sep (cur ++ [c]) r
  end.

(** [logging.INFO] *)
Definition INFO : Z := 20%Z.

Record log_notifier := Log_notifier {
  _logger : pyobj;
  _level : pyobj
}.

Section Load.

(** Not among the sources, and free here: [verify_type], the [__init__]
    of the base classes, and of the [logging] module the attributes
    ([getattr(logging, name)]) and the loggers ([getLogger(name)]); and
    the interpreter's limit on the digits that [int()] reads. *)
Variable verify_type : pyobj -> string -> bool -> bool -> result unit.
Variable super_init : result unit.
Variable logging_getattr : str -> result pyobj.
Variable getLogger : str -> pyobj.
Variable max_str_digits : nat.

Definition check {A} (r : result unit) (k : result A) : result A :=
  match r with
  | Ok _ => k
  | Err e => Err e
  end.

Definition __init__ (logger : pyobj) (level : option pyobj)
  : result log_notifier :=
  let continue (logger : pyobj) : result log_notifier :=
    check (verify_type logger "Logger" false false)
      (let level := default (PyInt INFO) level in
       check (verify_type level "int" false false)
         (check super_init (Ok (Log_notifier logger level)))) in
  match logger with
  | PyStr name =>
      check (verify_type logger "str" true false) (continue (getLogger name))
  | _ => continue logger
  end.

(** [isinstance(level, int)]: an [int], or a [bool], which is one. *)
Definition is_int (v : pyobj) : bool :=
  match v with
  | PyInt _ | PyBool _ => true
  | _ => false
  end.

(** The level named after the [@]: a number when [isdigit] says so, else
    the attribute of [logging] with the name in upper case.  [logging] has
    no attribute whose name has a character above 255. *)
Definition level_of (level : str) : result pyobj :=
  if isdigit level then
    match builtins.int max_str_digits (map builtins.Latin1 level) with
    | Ok z => Ok (PyInt z)
    | Err e => Err e
    end
  else
    match upper level with
    | None => Err (OtherError (lit "AttributeError"))
    | Some name =>
        match logging_getattr name with
        | Ok v => if is_int v then Ok v else Err bare_assertion
        | Err e => Err e
        end
    end.

Definition load_config_value (config_loader : pyobj) (value : str)
  : result log_notifier :=
  check (verify_type config_loader "ConfigLoader" false false)
    (check (verify_type (PyStr value) "str" true false)
       (if bool_decide ("@" ∈ value) then
          match split_on "@" [] value with
          | [name; level] =>
              match level_of level with
              | Ok level => __init__ (getLogger name) (Some level)
              | Err e => Err e
              end
          | _ => Err ValueError   (* too many values to unpack *)
          end
        else __init__ (getLogger value) (Some (PyInt INFO)))).

End Load.

End LogNotifier.

(** ** Vocabulary of the further facts *)

(** The entry made of a field: the type in lower case, the rest as it is. *)
Definition entry_of (f : field) : field :=
  let '(nullable, field_type, field_name, value_template) := f in
  (nullable, lower field_type, field_name, value_template).

(** [verify_type] accepts booleans as [bool], strings as [str] unless
    they are empty where that is excluded, and [None] where it is
    allowed. *)
Definition verifies (verify_type : pyobj -> string -> bool -> bool -> result unit)
  : Prop :=
  (forall b, verify_type (PyBool b) "bool"%string false false = Ok tt)
  /\ (forall s non_empty allow_none,
        (non_empty = true -> s <> []) ->
        verify_type (PyStr s) "str"%string non_empty allow_none = Ok tt)
  /\ (forall non_empty, verify_type PyNone "str"%string non_empty true = Ok tt).

(** What the scanner's state says about the text scanned so far. *)
Definition scanned (body : str) (st : scan) : Prop :=
  existsb isspace (field_type st) = false
  /\ match field_name st, value_template st with
     | None, None => body = field_type st /\ in_brackets st = false
     | Some n, None =>
         exists w region,
           body = field_type st ++ w :: region /\ isspace w = true
           /\ scan_line (Scan (field_type st) (Some []) None false) region = st
     | Some n, Some t =>
         exists w region,
           body = field_type st ++ w :: region ++ ":" :: t
           /\ isspace w = true /\ in_brackets st = false
           /\ scan_line (Scan (field_type st) (Some []) None false) region
              = Scan (field_type st) (Some n) None false
     | None, Some _ => False
     end.

Section Literals.

Variable L : library.
Variable kwargs : gmap str str.

(** The value the loop of [__call__] computes for a field, or the
    exception it raises there. *)
Definition field_literal (f : field) : result literal :=
  let '(nullable, field_type, _, value_template) := f in
  match format_map L value_template kwargs with
  | Err e => Err e
  | Ok value_str =>
      if null_override nullable value_str then Ok (V PyNone NULL)
      else match TYPE_MAP !! field_type with
           | None => Err (KeyError field_type)
           | Some sql_type => parsed L sql_type value_str
           end
  end.

(** [assigned fields lits]: one assignment per field, in order, under the
    field's name and with the field's value. *)
Definition assigned (fields : list field) (lits : list (str * literal)) : Prop :=
  Forall2 (fun f a => a.1 = f.1.2 /\ field_literal f = Ok a.2) fields lits.

Definition resolves (f : field) : Prop := exists v, field_literal f = Ok v.

End Literals.

(** [INSERT] selects an insert, any other command type an update. *)
Definition command_kind (self : notifier) : statement :=
  if bool_decide (_command_type self = lit "INSERT") then Insert else Update.

(** The superscripts two, three and one (U+00B2, U+00B3, U+00B9): digits
    for [str.isdigit], but no decimal digits. *)
Definition superscript_digit (c : ascii) : bool :=
  let n := code c in ((n =? 178) || (n =? 179) || (n =? 185))%nat.

(** How often a character occurs in a string. *)
Definition occurrences (sep : ascii) (s : str) : nat :=
  length (List.filter (fun c => bool_decide (c = sep)) s).

(** * Facts *)

(** ** Facts about the string operations *)

Section StringFacts.

Context {A : Type} (p : A -> bool).

Lemma dropwhile_all (l : list A) :
  forallb p l = true -> dropwhile p l = [].
Proof.
  induction l as [|x l IH]; simpl; [done|].
  intros [Hx Hl]%andb_prop. rewrite Hx. auto.
Qed.

Lemma dropwhile_nil_inv (l : list A) :
  dropwhile p l = [] -> forallb p l = true.
Proof.
  induction l as [|x l IH]; simpl; [done|].
  destruct (p x); simpl; [exact IH | discriminate].
Qed.

Lemma dropwhile_head (x : A) (l : list A) :
  p x = false -> dropwhile p (x :: l) = x :: l.
Proof. intros H. simpl. now rewrite H. Qed.

Lemma dropwhile_head_false (l r : list A) (x : A) :
  dropwhile p l = x :: r -> p x = false.
Proof.
  induction l as [|y l IH]; simpl; [discriminate|].
  destruct (p y) eqn:E; [exact IH|]. intros [= <- _]. exact E.
Qed.

Lemma dropwhile_idem (l : list A) :
  dropwhile p (dropwhile p l) = dropwhile p l.
Proof.
  induction l as [|x l IH]; simpl; [done|].
  destruct (p x) eqn:E; [exact IH | simpl; now rewrite E].
Qed.

Lemma dropwhile_app_all (l1 l2 : list A) :
  forallb p l1 = true -> dropwhile p (l1 ++ l2) = dropwhile p l2.
Proof.
  induction l1 as [|x l1 IH]; simpl; [done|].
  intros [Hx Hl]%andb_prop. rewrite Hx. auto.
Qed.

Lemma dropwhile_app_stop (l1 l2 : list A) :
  forallb p l1 = false -> dropwhile p (l1 ++ l2) = dropwhile p l1 ++ l2.
Proof.
  induction l1 as [|x l1 IH]; simpl; [discriminate|].
  destruct (p x); simpl; [exact IH | done].
Qed.

Lemma forallb_rev' (l : list A) : forallb p (rev l) = forallb p l.
Proof.
  induction l as [|x l IH]; simpl; [done|].
  rewrite forallb_app, IH. simpl. rewrite andb_true_r. apply andb_comm.
Qed.

Lemma existsb_rev' (l : list A) :
  existsb p (rev l) = existsb p l.
Proof.
  induction l as [|x l IH]; simpl; [done|].
  rewrite existsb_app, IH. simpl. rewrite orb_false_r. apply orb_comm.
Qed.

End StringFacts.

Lemma dropwhile_split {A} (p : A -> bool) (l : list A) :
  exists ws, l = ws ++ dropwhile p l /\ forallb p ws = true.
Proof.
  induction l as [|x l (ws & IH & Hws)]; [by exists []|]. simpl.
  destruct (p x) eqn:E.
  - exists (x :: ws). simpl. rewrite E. split; [now f_equal | done].
  - by exists [].
Qed.

Lemma lstrip_all_space (s : str) : forallb isspace s = true -> lstrip s = [].
Proof. apply dropwhile_all. Qed.

Lemma strip_all_space (s : str) : forallb isspace s = true -> strip s = [].
Proof. intros H. unfold strip. now rewrite lstrip_all_space. Qed.

Lemma rstrip_nil_inv (s : str) : rstrip s = [] -> forallb isspace s = true.
Proof.
  unfold rstrip. intros H.
  apply (f_equal (@rev ascii)) in H. rewrite rev_involutive in H. simpl in H.
  apply dropwhile_nil_inv in H. now rewrite forallb_rev' in H.
Qed.

Lemma strip_nil_inv (s : str) : strip s = [] -> forallb isspace s = true.
Proof.
  unfold strip. intros H%rstrip_nil_inv.
  apply dropwhile_nil_inv. unfold lstrip in H.
  induction s as [|c s IH]; simpl in *; [done|].
  destruct (isspace c) eqn:E; [auto|].
  simpl in H. now rewrite E in H.
Qed.

Lemma rstrip_idem (s : str) : rstrip (rstrip s) = rstrip s.
Proof. unfold rstrip. now rewrite rev_involutive, dropwhile_idem. Qed.

Lemma rstrip_strip (s : str) : rstrip (strip s) = strip s.
Proof. apply rstrip_idem. Qed.

(** Trailing whitespace is removed from the last part that has a
    non-whitespace character. *)
Lemma rstrip_app (a b : str) :
  forallb isspace b = false -> rstrip (a ++ b) = a ++ rstrip b.
Proof.
  intros H. unfold rstrip. rewrite rev_app_distr.
  rewrite dropwhile_app_stop by now rewrite forallb_rev'.
  now rewrite rev_app_distr, rev_involutive.
Qed.

Lemma rstrip_app_inv (a b : str) :
  forallb isspace b = false -> rstrip (a ++ b) = a ++ b -> rstrip b = b.
Proof.
  intros H E. rewrite rstrip_app in E by done. now apply app_inv_head in E.
Qed.

Lemma rstrip_cons_nonspace (c : ascii) (s : str) :
  isspace c = false -> exists r, rstrip (c :: s) = c :: r.
Proof.
  intros Hc. unfold rstrip. simpl rev.
  destruct (forallb isspace (rev s)) eqn:E.
  - rewrite dropwhile_app_all by done. simpl. rewrite Hc. by exists [].
  - rewrite dropwhile_app_stop by done. rewrite rev_app_distr. simpl. eauto.
Qed.

(** A trimmed string is empty or starts with a non-whitespace character. *)
Lemma strip_head (s : str) :
  strip s = [] \/ exists c r, strip s = c :: r /\ isspace c = false.
Proof.
  unfold strip. destruct (lstrip s) as [|c l] eqn:E; [by left|].
  right. pose proof (dropwhile_head_false _ _ _ _ E) as Hc.
  destruct (rstrip_cons_nonspace c l Hc) as [r Hr]. eauto.
Qed.

Lemma strip_space_nil (s : str) :
  forallb isspace (strip s) = true -> strip s = [].
Proof.
  destruct (strip_head s) as [H | (c & r & H & Hc)]; [done|].
  rewrite H. simpl. now rewrite Hc.
Qed.

Lemma lstrip_strip (s : str) : lstrip (strip s) = strip s.
Proof.
  destruct (strip_head s) as [-> | (c & r & -> & Hc)]; [done|].
  now apply dropwhile_head.
Qed.

Lemma strip_idem (s : str) : strip (strip s) = strip s.
Proof. unfold strip at 1. rewrite lstrip_strip. apply rstrip_strip. Qed.

Lemma lstrip_token (ty rest : str) :
  ty <> [] -> existsb isspace ty = false -> lstrip (ty ++ rest) = ty ++ rest.
Proof.
  destruct ty as [|t ty]; [done|]. unfold lstrip. simpl.
  intros _ [-> _]%orb_false_elim. done.
Qed.

Lemma token_not_blank (ty rest : str) :
  ty <> [] -> existsb isspace ty = false ->
  forallb isspace (ty ++ rest) = false.
Proof.
  destruct ty as [|t ty]; [done|]. simpl.
  intros _ [-> _]%orb_false_elim. done.
Qed.

(** A non-empty token without whitespace is left alone by [strip]. *)
Lemma strip_token (ty : str) :
  ty <> [] -> existsb isspace ty = false -> strip ty = ty.
Proof.
  intros Hne Hty. unfold strip.
  rewrite <- (app_nil_r ty) at 1. rewrite lstrip_token, app_nil_r by done.
  unfold rstrip. rewrite <- (rev_involutive ty) at 2. f_equal.
  rewrite <- existsb_rev' in Hty.
  destruct (rev ty) as [|c r] eqn:E.
  - apply (f_equal (@rev ascii)) in E. rewrite rev_involutive in E. done.
  - simpl in *. apply orb_false_elim in Hty as [-> _]. done.
Qed.

Lemma strip_not_blank (s : str) : forallb isspace s = false -> strip s <> [].
Proof. intros H E%strip_nil_inv. congruence. Qed.

Lemma lower_length (s : str) : length (lower s) = length s.
Proof. apply length_map. Qed.

Lemma isspace_lower_char (c : ascii) : isspace (lower_char c) = isspace c.
Proof. destruct c as [[] [] [] [] [] [] [] []]; reflexivity. Qed.

Lemma existsb_isspace_lower (s : str) :
  existsb isspace (lower s) = existsb isspace s.
Proof.
  induction s as [|c s IH]; simpl; [done|].
  now rewrite isspace_lower_char, IH.
Qed.

Lemma spaces_no_colon (ws : str) : forallb isspace ws = true -> ":" ∉ ws.
Proof.
  induction ws as [|c ws IH]; simpl; [intros _; apply not_elem_of_nil|].
  intros [Hc Hws]%andb_prop. apply not_elem_of_cons. split; [|auto].
  intros <-. discriminate.
Qed.

Lemma head_not_elem {A} (x : A) (l : list A) : x ∉ l -> head l <> Some x.
Proof. destruct l as [|y l]; [done|]. intros H [= ->]. apply H. by left. Qed.

(** A first token followed by whitespace is what [split()[0]] returns. *)
Lemma split_from_token (tok rest cur : str) (w : ascii) :
  existsb isspace tok = false -> isspace w = true -> cur ++ tok <> [] ->
  split_from cur (tok ++ w :: rest) !! 0%nat = Some (cur ++ tok).
Proof.
  revert cur. induction tok as [|c tok IH]; simpl; intros cur Hn Hw Hne.
  - rewrite Hw. rewrite app_nil_r in *. destruct cur; [done|reflexivity].
  - apply orb_false_elim in Hn as [Hc Hn]. rewrite Hc.
    rewrite IH; [|done|done|].
    + now rewrite <- app_assoc.
    + destruct cur; discriminate.
Qed.

Lemma split_nil_inv (cur s : str) :
  split_from cur s = [] -> cur = [] /\ forallb isspace s = true.
Proof.
  revert cur. induction s as [|c s IH]; simpl; intros cur H.
  - destruct cur; [done|discriminate].
  - destruct (isspace c) eqn:E.
    + destruct cur; [|discriminate]. apply IH in H as [_ H]. done.
    + apply IH in H as [H _]. destruct cur; discriminate.
Qed.

(** ** Facts about the scanner *)

Lemma scan_line_app (st : scan) (a b : str) :
  scan_line st (a ++ b) = scan_line (scan_line st a) b.
Proof. apply fold_left_app. Qed.

(** While no whitespace has been seen, characters go to the type. *)
Lemma scan_type_token (tok ft : str) (b : bool) :
  existsb isspace tok = false ->
  scan_line (Scan ft None None b) tok = Scan (ft ++ tok) None None b.
Proof.
  revert ft. induction tok as [|c tok IH]; intros ft H.
  - simpl. now rewrite app_nil_r.
  - apply orb_false_elim in H as [Hc H].
    change (scan_line (Scan ft None None b) (c :: tok))
      with (scan_line (scan_char (Scan ft None None b) c) tok).
    unfold scan_char. simpl. rewrite Hc.
    rewrite IH by done. now rewrite <- app_assoc.
Qed.

(** The type token and the whitespace after it bring the scanner to the
    start of the name. *)
Lemma scan_to_name (ty : str) (w : ascii) :
  existsb isspace ty = false -> isspace w = true ->
  scan_line scan_start (ty ++ [w]) = Scan ty (Some []) None false.
Proof.
  intros Hty Hw. rewrite scan_line_app. unfold scan_start.
  rewrite scan_type_token by done. simpl. unfold scan_char. simpl.
  now rewrite Hw.
Qed.

Lemma scan_open_bracket (ty : str) :
  scan_char (Scan ty (Some []) None false) "[" = Scan ty (Some []) None true.
Proof. reflexivity. Qed.

(** Inside brackets, and until a closing bracket, the scanner stays inside
    brackets and starts no template. *)
Lemma scan_unclosed (rest ft n : str) :
  "]" ∉ rest ->
  exists n', scan_line (Scan ft (Some n) None true) rest
             = Scan ft (Some n') None true.
Proof.
  revert n. induction rest as [|c rest IH]; intros n H.
  - by exists n.
  - apply not_elem_of_cons in H as [Hc H].
    change (scan_line (Scan ft (Some n) None true) (c :: rest))
      with (scan_line (scan_char (Scan ft (Some n) None true) c) rest).
    unfold scan_char. simpl.
    rewrite (bool_decide_eq_false_2 (c = "]")) by done.
    destruct (negb (truthy n) && bool_decide (c = "[")); simpl; by apply IH.
Qed.

(** Inside brackets, characters other than []] extend the name; a [[] is
    dropped only while the name is still empty. *)
Lemma scan_bracket_contents (l ft n : str) :
  "]" ∉ l -> n <> [] \/ head l <> Some "[" ->
  scan_line (Scan ft (Some n) None true) l
  = Scan ft (Some (n ++ l)) None true.
Proof.
  revert n. induction l as [|c l IH]; intros n Hc Hn.
  - simpl. now rewrite app_nil_r.
  - apply not_elem_of_cons in Hc as [Hc1 Hc].
    change (scan_line ?st (c :: l)) with (scan_line (scan_char st c) l).
    unfold scan_char. simpl.
    rewrite (bool_decide_eq_false_2 (c = "]")) by done.
    assert (negb (truthy n) && bool_decide (c = "[") = false) as ->.
    { destruct Hn as [Hn | Hn].
      - destruct n; [by destruct Hn | reflexivity].
      - rewrite (bool_decide_eq_false_2 (c = "[")); [apply andb_false_r|].
        intros ->. by apply Hn. }
    rewrite IH; [now rewrite <- app_assoc | done |].
    left. destruct n; discriminate.
Qed.

(** Outside brackets a [[] is an opening bracket only while the name is
    empty; after any other character it extends the name. *)
Lemma scan_name_append (l ft n : str) :
  ":" ∉ l -> n <> [] \/ head l <> Some "[" ->
  scan_line (Scan ft (Some n) None false) l
  = Scan ft (Some (n ++ l)) None false.
Proof.
  revert n. induction l as [|c l IH]; intros n Hc Hn.
  - simpl. now rewrite app_nil_r.
  - apply not_elem_of_cons in Hc as [Hc1 Hc].
    change (scan_line ?st (c :: l)) with (scan_line (scan_char st c) l).
    unfold scan_char. simpl.
    rewrite (bool_decide_eq_false_2 (c = ":")) by done.
    assert (negb (truthy n) && bool_decide (c = "[") = false) as ->.
    { destruct Hn as [Hn | Hn].
      - destruct n; [by destruct Hn | reflexivity].
      - rewrite (bool_decide_eq_false_2 (c = "[")); [apply andb_false_r|].
        intros ->. by apply Hn. }
    rewrite IH; [now rewrite <- app_assoc | done |].
    left. destruct n; discriminate.
Qed.

(** Once the template has started, every character belongs to it. *)
Lemma scan_template (l ft t : str) (fn : option str) (b : bool) :
  scan_line (Scan ft fn (Some t) b) l = Scan ft fn (Some (t ++ l)) b.
Proof.
  revert t. induction l as [|c l IH]; intros t.
  - simpl. now rewrite app_nil_r.
  - change (scan_line ?st (c :: l)) with (scan_line (scan_char st c) l).
    unfold scan_char. simpl. rewrite IH. now rewrite <- app_assoc.
Qed.

(** The assertion after the loop rejects a scan that ends inside brackets. *)
Lemma finish_in_brackets (nullable : bool) (original ft : str)
    (fn vt : option str) :
  finish nullable original (Scan ft fn vt true)
  = Err (AssertionError (Malformed_entry (strip original))).
Proof.
  unfold finish. simpl.
  destruct (strip_if_truthy fn), (strip_if_truthy vt); try done.
  now rewrite andb_false_r.
Qed.

(** [finish] raises nothing but assertion errors. *)
Lemma finish_Err (nullable : bool) (original : str) (st : scan) (e : exn) :
  finish nullable original st = Err e -> exists a, e = AssertionError a.
Proof.
  unfold finish.
  destruct (strip_if_truthy (field_name st)),
           (strip_if_truthy (value_template st)); try (intros [= <-]; eauto).
  destruct (_ && _); [destruct (TYPE_MAP !! _)|]; intros [= <-]; eauto.
Qed.

(** The assertions after the loop accept a closed scan with a known type
    token, a name and a template that are not blank. *)
Lemma finish_accepts (nullable : bool) (original ty n t : str)
    (k : LiteralTypes) :
  ty <> [] -> existsb isspace ty = false ->
  TYPE_MAP !! lower ty = Some k ->
  forallb isspace n = false -> forallb isspace t = false ->
  finish nullable original (Scan ty (Some n) (Some t) false)
  = Ok (nullable, lower ty, strip n, strip t).
Proof.
  intros Hne Hty Hk Hn Ht. unfold finish. simpl.
  rewrite (strip_token ty) by done. rewrite Hk.
  destruct n as [|c n]; [discriminate|]. destruct t as [|d t]; [discriminate|].
  simpl truthy. cbv iota.
  pose proof (strip_not_blank _ Hn) as Hn'. pose proof (strip_not_blank _ Ht) as Ht'.
  destruct (strip (c :: n)) as [|? ?]; [done|].
  destruct (strip (d :: t)) as [|? ?]; [done|].
  destruct ty; [done|]. reflexivity.
Qed.

Lemma strip_if_truthy_Some (o : option str) (s : str) :
  strip_if_truthy o = Some s -> s <> [] -> strip s = s.
Proof.
  destruct o as [x|]; simpl; [|discriminate].
  destruct x; simpl; intros [= <-]; [done|]. intros _. apply strip_idem.
Qed.

(** What the assertions after the loop guarantee of an accepted line. *)
Lemma finish_Ok (nullable b : bool) (original ft name tmpl : str) (st : scan) :
  finish nullable original st = Ok (b, ft, name, tmpl) ->
  b = nullable /\ is_Some (TYPE_MAP !! ft)
  /\ name <> [] /\ strip name = name
  /\ tmpl <> [] /\ strip tmpl = tmpl
  /\ in_brackets st = false.
Proof.
  unfold finish.
  destruct (strip_if_truthy (field_name st)) as [n|] eqn:En; [|discriminate].
  destruct (strip_if_truthy (value_template st)) as [t|] eqn:Et; [|discriminate].
  destruct (truthy _ && truthy n && truthy t && negb _) eqn:E; [|discriminate].
  destruct (TYPE_MAP !! _) eqn:Ek; [|discriminate].
  intros [= <- <- <- <-].
  apply andb_prop in E as [[[_ Hn]%andb_prop Ht]%andb_prop Hb].
  assert (n <> []) by (destruct n; done).
  assert (t <> []) by (destruct t; done).
  apply negb_true_iff in Hb.
  eauto 10 using strip_if_truthy_Some.
Qed.

Lemma parse_Ok (line ft name tmpl : str) (b : bool) :
  _parse_field_mapping_line line = Ok (b, ft, name, tmpl) ->
  is_Some (TYPE_MAP !! ft)
  /\ name <> [] /\ strip name = name /\ tmpl <> [] /\ strip tmpl = tmpl.
Proof.
  unfold _parse_field_mapping_line.
  destruct (nullable_prefix (strip line)) as [[nullable body]|]; [|discriminate].
  intros H%finish_Ok. tauto.
Qed.

Lemma keyword_prefix_inv (p : str) :
  keyword_prefix p = true ->
  p = [] \/ exists kw w0 ws,
    p = kw ++ w0 :: ws /\ lower kw = lit "nullable"
    /\ isspace w0 = true /\ forallb isspace ws = true.
Proof.
  intros H. destruct p as [|c p]; [by left|]. right.
  remember (c :: p) as q eqn:Hq. unfold keyword_prefix in H.
  rewrite Hq in H at 1.
  apply andb_prop in H as [[Hk Ht]%andb_prop Hs].
  apply bool_decide_eq_true_1 in Hk.
  destruct (drop 8 q) as [|w0 ws] eqn:Hd; [discriminate|].
  simpl in Hs. apply andb_prop in Hs as [Hw0 Hws].
  exists (take 8 q), w0, ws. rewrite <- Hd, take_drop. done.
Qed.

(** What the statements before the loop make of a trimmed line: without
    the keyword the line is scanned as it is, ... *)
Lemma nullable_prefix_absent (ty rest : str) (w : ascii) :
  ty <> [] -> existsb isspace ty = false -> lower ty <> lit "nullable" ->
  isspace w = true ->
  nullable_prefix (ty ++ w :: rest) = Ok (false, ty ++ w :: rest).
Proof.
  intros Hne Hty Hkw Hw. unfold nullable_prefix, split.
  rewrite split_from_token by done. simpl app.
  now rewrite bool_decide_eq_false_2.
Qed.

(** ... and with the keyword, what follows it and the whitespace. *)
Lemma nullable_prefix_present (kw ws ty rest : str) (w0 : ascii) :
  lower kw = lit "nullable" ->
  isspace w0 = true -> forallb isspace ws = true ->
  ty <> [] -> existsb isspace ty = false ->
  rstrip (kw ++ w0 :: ws ++ ty ++ rest) = kw ++ w0 :: ws ++ ty ++ rest ->
  nullable_prefix (kw ++ w0 :: ws ++ ty ++ rest) = Ok (true, ty ++ rest).
Proof.
  intros Hk Hw0 Hws Hne Hty Hr. unfold nullable_prefix, split.
  assert (Hlen : length kw = 8%nat).
  { rewrite <- lower_length, Hk. reflexivity. }
  assert (Hnk : existsb isspace kw = false).
  { rewrite <- existsb_isspace_lower, Hk. reflexivity. }
  rewrite split_from_token; [|done|done|].
  2:{ destruct kw; [discriminate|done]. }
  simpl app at 1. rewrite bool_decide_eq_true_2 by done.
  rewrite <- Hlen at 1. rewrite drop_app_length.
  f_equal. f_equal. unfold strip, lstrip.
  change (w0 :: ws ++ ty ++ rest) with ((w0 :: ws) ++ ty ++ rest).
  rewrite dropwhile_app_all by (simpl; now rewrite Hw0).
  fold (lstrip (ty ++ rest)). rewrite lstrip_token by done.
  apply (rstrip_app_inv (kw ++ w0 :: ws)).
  - by apply token_not_blank.
  - rewrite <- app_assoc. exact Hr.
Qed.

Lemma TYPE_MAP_not_keyword (ty : str) (k : LiteralTypes) :
  TYPE_MAP !! lower ty = Some k -> lower ty <> lit "nullable".
Proof. intros H E. rewrite E in H. vm_compute in H. discriminate. Qed.

(** The statements before the loop and the scan of the type token: what
    remains is the scan of the text after the first whitespace. *)
Lemma parse_after_type (line p ty rest : str) (w : ascii) :
  strip line = p ++ ty ++ w :: rest ->
  keyword_prefix p = true ->
  ty <> [] -> existsb isspace ty = false -> lower ty <> lit "nullable" ->
  isspace w = true ->
  _parse_field_mapping_line line
  = finish (truthy p) (strip line)
      (scan_line (Scan ty (Some []) None false) rest).
Proof.
  intros Hline Hp Hne Hty Hkw Hw.
  unfold _parse_field_mapping_line.
  pose proof (rstrip_strip line) as Hr.
  revert Hr. rewrite Hline. intros Hr.
  assert (Hscan : scan_line scan_start (ty ++ w :: rest)
                  = scan_line (Scan ty (Some []) None false) rest).
  { change (ty ++ w :: rest) with (ty ++ [w] ++ rest).
    now rewrite app_assoc, scan_line_app, scan_to_name. }
  apply keyword_prefix_inv in Hp as [-> | (kw & w0 & ws & -> & Hk & Hw0 & Hws)].
  - simpl app in *. rewrite nullable_prefix_absent by done. now rewrite Hscan.
  - rewrite <- !app_assoc in *. simpl app in *.
    rewrite nullable_prefix_present by done. rewrite Hscan.
    destruct kw; [discriminate|]. reflexivity.
Qed.

(** A name region that has no [:] and does not start with [[] is the
    name, trimmed, whatever else it holds. *)
Lemma parse_verbatim_name (line p ty region tail : str) (w : ascii)
    (k : LiteralTypes) :
  strip line = p ++ ty ++ w :: region ++ ":" :: tail ->
  keyword_prefix p = true ->
  ty <> [] -> existsb isspace ty = false -> TYPE_MAP !! lower ty = Some k ->
  isspace w = true ->
  ":" ∉ region -> head region <> Some "[" ->
  forallb isspace region = false -> forallb isspace tail = false ->
  _parse_field_mapping_line line
  = Ok (truthy p, lower ty, strip region, strip tail).
Proof.
  intros Hline Hp Hne Hty Hk Hw Hc Hb Hn Ht.
  rewrite (parse_after_type line p ty (region ++ ":" :: tail) w)
    by eauto using TYPE_MAP_not_keyword.
  rewrite scan_line_app, scan_name_append by auto.
  change (scan_line ?st (":" :: tail)) with (scan_line (scan_char st ":") tail).
  unfold scan_char. simpl. rewrite scan_template. simpl.
  by eapply finish_accepts.
Qed.

(** A bracketed name region that starts right after the whitespace
    character which ends the type: the name is what the brackets hold
    (and what follows them before the [:]), trimmed. *)
Lemma parse_bracketed_name (line p ty contents after tail : str) (w : ascii)
    (k : LiteralTypes) :
  strip line = p ++ ty ++ w :: "[" :: contents ++ "]" :: after ++ ":" :: tail ->
  keyword_prefix p = true ->
  ty <> [] -> existsb isspace ty = false -> TYPE_MAP !! lower ty = Some k ->
  isspace w = true ->
  "]" ∉ contents -> head contents <> Some "[" ->
  ":" ∉ after -> "[" ∉ after ->
  forallb isspace (contents ++ after) = false -> forallb isspace tail = false ->
  _parse_field_mapping_line line
  = Ok (truthy p, lower ty, strip (contents ++ after), strip tail).
Proof.
  intros Hline Hp Hne Hty Hk Hw Hc Hh Ha Hb Hn Ht.
  rewrite (parse_after_type line p ty
             ("[" :: contents ++ "]" :: after ++ ":" :: tail) w)
    by eauto using TYPE_MAP_not_keyword.
  change (scan_line ?st ("[" :: ?l)) with (scan_line (scan_char st "[") l).
  rewrite scan_open_bracket.
  rewrite scan_line_app, scan_bracket_contents by auto.
  change (scan_line ?st ("]" :: ?l)) with (scan_line (scan_char st "]") l).
  unfold scan_char. simpl.
  rewrite scan_line_app.
  rewrite scan_name_append; [|done|right; by apply head_not_elem].
  change (scan_line ?st (":" :: tail)) with (scan_line (scan_char st ":") tail).
  unfold scan_char. simpl. rewrite scan_template. simpl.
  by eapply finish_accepts.
Qed.

Lemma bare_token_inv (region : str) :
  bare_token region = true ->
  region <> [] /\ existsb isspace region = false /\ "[" ∉ region.
Proof.
  unfold bare_token.
  intros [[[H1 H2]%andb_prop H3]%andb_prop _]%andb_prop.
  apply negb_true_iff in H2. apply negb_true_iff, bool_decide_eq_false_1 in H3.
  repeat split; try done. by destruct region.
Qed.

(** ** The claims about [_parse_field_mapping_line] *)

Example parse_doc_example :
  _parse_field_mapping_line (lit "nullable string [Full Name]: {first} {last}")
  = Ok (true, lit "string", lit "Full Name", lit "{first} {last}").
Proof. vm_compute. reflexivity. Qed.

(** C3: after two or more whitespace characters the opening bracket is
    not taken as a bracket, and the name comes back with its brackets:
    [string  [Full Name]: ...] yields the name [[Full Name]], where the
    same line with one space yields [Full Name]. *)
Theorem C3_brackets_kept_after_wide_gap (line p ty gap contents tail : str)
    (w : ascii) (k : LiteralTypes) :
  strip line = p ++ ty ++ w :: gap ++ "[" :: contents ++ "]" :: ":" :: tail ->
  keyword_prefix p = true ->
  ty <> [] -> existsb isspace ty = false -> TYPE_MAP !! lower ty = Some k ->
  isspace w = true -> gap <> [] -> forallb isspace gap = true ->
  ":" ∉ contents -> forallb isspace tail = false ->
  _parse_field_mapping_line line
  = Ok (truthy p, lower ty, "[" :: contents ++ ["]"], strip tail).
Proof.
  intros Hline Hp Hne Hty Hk Hw Hg Hgap Hc Ht.
  set (region := gap ++ "[" :: contents ++ ["]"]).
  assert (Hs : strip region = "[" :: contents ++ ["]"]).
  { unfold region, strip, lstrip. rewrite dropwhile_app_all by done.
    simpl dropwhile.
    change ("[" :: contents ++ ["]"]) with (("[" :: contents) ++ ["]"]).
    rewrite rstrip_app by reflexivity. reflexivity. }
  rewrite <- Hs.
  apply (parse_verbatim_name line p ty region tail w k); try done.
  - rewrite Hline. unfold region. do 3 f_equal.
    rewrite <- app_assoc. simpl. now rewrite <- app_assoc.
  - unfold region. intros [H|H]%elem_of_app.
    + by apply spaces_no_colon in H.
    + apply elem_of_cons in H as [H|H]; [discriminate|].
      apply elem_of_app in H as [H|H]; [done|].
      apply list_elem_of_singleton in H. discriminate.
  - unfold region. destruct gap as [|g gap]; [done|]. simpl in *.
    apply andb_prop in Hgap as [Hg' _]. intros [= ->]. discriminate.
  - unfold region. rewrite forallb_app. simpl. apply andb_false_r.
Qed.

Lemma C3_brackets_kept_witness :
  _parse_field_mapping_line (lit "string  [Full Name]: {first} {last}")
  = Ok (false, lit "string", lit "[Full Name]", lit "{first} {last}").
Proof.
  apply (C3_brackets_kept_after_wide_gap
           (lit "string  [Full Name]: {first} {last}")
           [] (lit "string") [" "] (lit "Full Name") (lit " {first} {last}")
           " " STRING).
  - reflexivity.
  - reflexivity.
  - discriminate.
  - reflexivity.
  - reflexivity.
  - reflexivity.
  - discriminate.
  - reflexivity.
  - apply (bool_decide_unpack _). vm_compute. exact I.
  - reflexivity.
Defined.

Lemma rstrip_cons (c : ascii) (s : str) :
  isspace c = false -> rstrip (c :: s) = c :: rstrip s.
Proof.
  intros Hc. unfold rstrip. simpl rev.
  destruct (forallb isspace (rev s)) eqn:E.
  - rewrite dropwhile_app_all, (dropwhile_all _ (rev s)) by done.
    simpl. now rewrite Hc.
  - rewrite dropwhile_app_stop by done. now rewrite rev_app_distr.
Qed.

(** C4: a [[] after the type that no []] follows.  Directly after the
    whitespace character that ends the type it opens the bracketed name,
    and the line is rejected by the "Malformed field mapping entry"
    assertion whatever the rest holds: a [:] inside the unclosed bracket
    does not start the template.  After more whitespace the same [[] is
    taken for a character of the name: a [:] ends the name, and the line
    is accepted with a name that starts with the bracket.  The line may
    start with the [nullable] keyword. *)
Theorem C4_unclosed_bracket (line p ty gap rest : str) (w : ascii) :
  strip line = p ++ ty ++ w :: gap ++ "[" :: rest ->
  keyword_prefix p = true ->
  ty <> [] -> existsb isspace ty = false -> lower ty <> lit "nullable" ->
  isspace w = true -> forallb isspace gap = true ->
  "]" ∉ rest ->
  (gap = [] ->
   _parse_field_mapping_line line
   = Err (AssertionError (Malformed_entry (strip line))))
  /\ (gap <> [] ->
      forall name tail k,
        rest = name ++ ":" :: tail -> ":" ∉ name ->
        TYPE_MAP !! lower ty = Some k -> forallb isspace tail = false ->
        _parse_field_mapping_line line
        = Ok (truthy p, lower ty, "[" :: rstrip name, strip tail)).
Proof.
  intros Hline Hp Hne Hty Hkw Hw Hgap Hrest. split.
  - intros ->. simpl app in Hline.
    rewrite (parse_after_type line p ty ("[" :: rest) w) by done.
    change (scan_line ?st ("[" :: rest)) with (scan_line (scan_char st "[") rest).
    rewrite scan_open_bracket.
    destruct (scan_unclosed rest ty [] Hrest) as [n' ->].
    rewrite finish_in_brackets. now rewrite strip_idem.
  - intros Hg name tail k -> Hc Hk Ht.
    set (region := gap ++ "[" :: name).
    assert (Hs : strip region = "[" :: rstrip name).
    { unfold region, strip, lstrip. rewrite dropwhile_app_all by done.
      simpl dropwhile. by apply rstrip_cons. }
    rewrite <- Hs.
    apply (parse_verbatim_name line p ty region tail w k); try done.
    + rewrite Hline. unfold region. do 3 f_equal. now rewrite <- app_assoc.
    + unfold region. intros [H|H]%elem_of_app.
      * by apply spaces_no_colon in H.
      * apply elem_of_cons in H as [H|H]; [discriminate|done].
    + unfold region. destruct gap as [|g gap]; [done|]. simpl in *.
      apply andb_prop in Hgap as [Hg' _]. intros [= ->]. discriminate.
    + unfold region. rewrite forallb_app. simpl. apply andb_false_r.
Qed.

Lemma C4_unclosed_bracket_witness :
  _parse_field_mapping_line (lit "string [Name: {x}")
  = Err (AssertionError (Malformed_entry (lit "string [Name: {x}")))
  /\ _parse_field_mapping_line (lit "string  [Name: {x}")
     = Ok (false, lit "string", lit "[Name", lit "{x}").
Proof.
  split.
  - apply (C4_unclosed_bracket
             (lit "string [Name: {x}") [] (lit "string") [] (lit "Name: {x}") " ");
      try reflexivity; try discriminate.
    apply (bool_decide_unpack _). vm_compute. exact I.
  - destruct (C4_unclosed_bracket
                (lit "string  [Name: {x}") [] (lit "string") [" "]
                (lit "Name: {x}") " ") as [_ H];
      [reflexivity | reflexivity | discriminate | reflexivity | discriminate
      | reflexivity | reflexivity | |].
    + apply (bool_decide_unpack _). vm_compute. exact I.
    + apply (H ltac:(discriminate) (lit "Name") (lit " {x}") STRING);
        [reflexivity | | reflexivity | reflexivity].
      apply (bool_decide_unpack _). vm_compute. exact I.
Defined.

Example unclosed_bracket_after_keyword :
  _parse_field_mapping_line (lit "  Nullable  string [Name: {x} ")
  = Err (AssertionError (Malformed_entry (lit "Nullable  string [Name: {x}"))).
Proof. vm_compute. reflexivity. Qed.

(** A bracket that is closed at once and opened again is still unclosed. *)
Example unclosed_second_bracket :
  _parse_field_mapping_line (lit "string [][Name: {x}")
  = Err (AssertionError (Malformed_entry (lit "string [][Name: {x}"))).
Proof. vm_compute. reflexivity. Qed.

(** C5, as amended: the name of an accepted line is not empty and has no
    whitespace at its ends.  A bare token without whitespace, brackets and
    [:] is accepted and is the name; a bracketed region that directly
    follows the whitespace character after the type is accepted and its
    contents, trimmed, are the name. *)
Theorem C5_accepted_names :
  (forall line nullable ty name template,
     _parse_field_mapping_line line = Ok (nullable, ty, name, template) ->
     name <> [] /\ strip name = name)
  /\ (forall line p ty gap name tail w k,
        strip line = p ++ ty ++ w :: gap ++ name ++ ":" :: tail ->
        keyword_prefix p = true ->
        ty <> [] -> existsb isspace ty = false ->
        TYPE_MAP !! lower ty = Some k ->
        isspace w = true -> forallb isspace gap = true ->
        bare_token name = true -> ":" ∉ name ->
        forallb isspace tail = false ->
        _parse_field_mapping_line line
        = Ok (truthy p, lower ty, name, strip tail))
  /\ (forall line p ty contents tail w k,
        strip line = p ++ ty ++ w :: "[" :: contents ++ "]" :: ":" :: tail ->
        keyword_prefix p = true ->
        ty <> [] -> existsb isspace ty = false ->
        TYPE_MAP !! lower ty = Some k ->
        isspace w = true ->
        "]" ∉ contents -> head contents <> Some "[" ->
        forallb isspace contents = false ->
        forallb isspace tail = false ->
        _parse_field_mapping_line line
        = Ok (truthy p, lower ty, strip contents, strip tail)).
Proof.
  split; [|split].
  - intros line nullable ty name template H%parse_Ok. tauto.
  - intros line p ty gap name tail w k Hline Hp Hne Hty Hk Hw Hgap Hb Hc Ht.
    apply bare_token_inv in Hb as (Hn & Hs & Hbr).
    assert (Hstrip : strip (gap ++ name) = name).
    { unfold strip, lstrip. rewrite dropwhile_app_all by done.
      fold (lstrip name). fold (strip name). by apply strip_token. }
    rewrite <- Hstrip.
    apply (parse_verbatim_name line p ty (gap ++ name) tail w k); try done.
    + rewrite Hline. now rewrite <- app_assoc.
    + intros [H|H]%elem_of_app; [by apply spaces_no_colon in H | done].
    + destruct gap as [|g gap]; simpl.
      * destruct name as [|c name]; [done|]. simpl. intros [= ->].
        apply Hbr. by left.
      * simpl in Hgap. apply andb_prop in Hgap as [Hg _].
        intros [= ->]. discriminate.
    + rewrite forallb_app.
      pose proof (token_not_blank name [] Hn Hs) as Hnb.
      rewrite app_nil_r in Hnb. rewrite Hnb. apply andb_false_r.
  - intros line p ty contents tail w k Hline Hp Hne Hty Hk Hw Hc Hh Hn Ht.
    pose proof (parse_bracketed_name line p ty contents [] tail w k) as H.
    rewrite app_nil_r in H. apply H; try done.
    + apply not_elem_of_nil.
    + apply not_elem_of_nil.
Qed.

Lemma C5_accepted_names_witness :
  _parse_field_mapping_line (lit "int  count: {c}")
  = Ok (false, lit "int", lit "count", lit "{c}")
  /\ _parse_field_mapping_line (lit "nullable string [Full Name]: {first} {last}")
     = Ok (true, lit "string", lit "Full Name", lit "{first} {last}").
Proof.
  split.
  - apply (proj1 (proj2 C5_accepted_names)
             (lit "int  count: {c}") [] (lit "int") [" "] (lit "count")
             (lit " {c}") " " INTEGER); try reflexivity; try discriminate.
    apply (bool_decide_unpack _). vm_compute. exact I.
  - apply (proj2 (proj2 C5_accepted_names)
             (lit "nullable string [Full Name]: {first} {last}")
             (lit "nullable ") (lit "string") (lit "Full Name")
             (lit " {first} {last}") " " STRING);
      try reflexivity; try discriminate.
    apply (bool_decide_unpack _). vm_compute. exact I.
Defined.

(** C5 as written fails: a name region with a space in it, which is
    neither a bare token nor a bracketed region, is accepted. *)
Lemma C5_name_with_space_accepted :
  lit "string my name: x" = lit "string" ++ " " :: lit "my name" ++ ":" :: lit " x"
  /\ _parse_field_mapping_line (lit "string my name: x")
     = Ok (false, lit "string", lit "my name", lit "x")
  /\ bare_token (lit "my name") = false
  /\ bracketed_region (lit "my name") = false.
Proof. repeat split. Qed.

(** C10: a line that is empty or consists of whitespace only makes
    [_parse_field_mapping_line] fail with [IndexError], raised by
    [line.split()[0]] before the scanner and its assertions run; no other
    line fails that way, and the assertion errors of the grammar checks are
    never raised for a blank line. *)
Theorem C10_blank_line_IndexError (line : str) :
  _parse_field_mapping_line line = Err IndexError
  <-> forallb isspace line = true.
Proof.
  unfold _parse_field_mapping_line, nullable_prefix. split.
  - destruct (split (strip line) !! 0%nat) as [tok|] eqn:E.
    + destruct (bool_decide _); intros H%finish_Err; by destruct H.
    + intros _. unfold split in E.
      destruct (split_from [] (strip line)) eqn:E'; [|discriminate].
      apply split_nil_inv in E' as [_ E'].
      apply strip_nil_inv. by apply strip_space_nil.
  - intros H. by rewrite strip_all_space.
Qed.

Lemma C10_blank_line_witness :
  _parse_field_mapping_line (lit "   ") = Err IndexError.
Proof. apply C10_blank_line_IndexError. reflexivity. Defined.

(** ** Facts about [int] *)

Import builtins.

Example int_123 : int 4300 (map Latin1 (lit "123")) = Ok 123%Z.
Proof. reflexivity. Qed.
Example int_signed : int 4300 (map Latin1 (lit "-12")) = Ok (-12)%Z.
Proof. reflexivity. Qed.
Example int_padded : int 4300 (map Latin1 (lit " 12 ")) = Ok 12%Z.
Proof. reflexivity. Qed.
Example int_underscore : int 4300 (map Latin1 (lit "1_000")) = Ok 1000%Z.
Proof. reflexivity. Qed.
Example int_zeros : int 4300 (map Latin1 (lit "007")) = Ok 7%Z.
Proof. reflexivity. Qed.
Example int_bad :
  map (fun s => int 4300 (map Latin1 s))
    [lit ""; lit "-"; lit "+-1"; lit "1__0"; lit "_1"; lit "1_"; lit "1 2";
     lit "- 1"; lit "0x10"; lit "1.0"; lit "1e3"; lit "nil"; ["028"; "1"]]
  = repeat (Err ValueError) 13.
Proof. reflexivity. Qed.

(** ARABIC-INDIC DIGIT ONE and ZERO between two EM SPACEs. *)
Example int_other_script :
  int 4300 [Wide 8195 White_space; Wide 1633 (Decimal_digit 1%fin);
            Wide 1632 (Decimal_digit 0%fin); Wide 8195 White_space]
  = Ok 10%Z.
Proof. reflexivity. Qed.

(** With the limit at its default, 4300 digits are read and 4301 are not,
    whatever they are; without a limit they are. *)
Example int_at_the_limit :
  (exists z, int 4300 (map Latin1 (repeat "1" 4300)) = Ok z)
  /\ int 4300 (map Latin1 (repeat "1" 4301)) = Err ValueError
  /\ int 4300 (map Latin1 (repeat "0" 4301)) = Err ValueError
  /\ int 0 (map Latin1 (repeat "0" 4301)) = Ok 0%Z.
Proof.
  repeat split; try (vm_compute; reflexivity).
  eexists. vm_compute. reflexivity.
Qed.

Lemma digit_not_space (c : uchar) :
  is_Some (int_digit c) -> int_space c = false.
Proof.
  destruct c as [a|cp k].
  - destruct a as [[] [] [] [] [] [] [] []]; try reflexivity;
      intros [? H]; discriminate H.
  - destruct k; [reflexivity| |]; intros [? H]; discriminate H.
Qed.

Lemma digit_not_sign (c : uchar) :
  is_Some (int_digit c) ->
  c <> Latin1 "+" /\ c <> Latin1 "-" /\ is_underscore c = false.
Proof.
  intros [v H]. repeat split; try (intros ->; discriminate).
  unfold is_underscore. apply bool_decide_eq_false_2. intros ->. discriminate.
Qed.

Lemma space_not_digit (c : uchar) :
  int_space c = true ->
  int_digit c = None /\ is_underscore c = false
  /\ c <> Latin1 "+" /\ c <> Latin1 "-".
Proof.
  intros H. repeat split; try (intros ->; discriminate).
  - destruct (int_digit c) eqn:E; [|done].
    rewrite digit_not_space in H by eauto. discriminate.
  - unfold is_underscore. apply bool_decide_eq_false_2. intros ->. discriminate.
Qed.

Lemma text_value_app (a b : text) (acc : Z) :
  text_value acc (a ++ b) = text_value (text_value acc a) b.
Proof. apply fold_left_app. Qed.

Lemma text_value_cons (d : uchar) (ds : text) (acc v : Z) :
  int_digit d = Some v ->
  text_value acc (d :: ds) = text_value (10 * acc + v) ds.
Proof. intros H. unfold text_value. simpl. now rewrite H. Qed.

Lemma text_value_latin1 (ds : str) (acc : Z) :
  forallb is_digit ds = true ->
  text_value acc (map Latin1 ds) = decimal_value acc ds.
Proof.
  revert acc. induction ds as [|d ds IH]; intros acc H; [done|].
  cbn [forallb] in H. apply andb_prop in H as [Hd Hds]. cbn [map].
  rewrite (text_value_cons _ _ _ (digit_value d)) by (simpl; now rewrite Hd).
  rewrite IH by done. reflexivity.
Qed.

Lemma digits_latin1 (ds : str) :
  forallb is_digit ds = true ->
  Forall (fun c => is_Some (int_digit c)) (map Latin1 ds).
Proof.
  induction ds as [|d ds IH]; simpl; [constructor|].
  intros [Hd Hds]%andb_prop. constructor; [|auto]. simpl. rewrite Hd. eauto.
Qed.

Lemma int_digits_digit (c : uchar) (r : text) (acc v : Z) (n : nat) :
  int_digit c = Some v ->
  int_digits acc n (c :: r) = int_digits (10 * acc + v) (S n) r.
Proof. intros H. simpl. now rewrite H. Qed.

Lemma int_digits_underscore (d : uchar) (r : text) (acc v : Z) (n : nat) :
  int_digit d = Some v ->
  int_digits acc n (Latin1 "_" :: d :: r) = int_digits (10 * acc + v) (S n) r.
Proof. intros H. simpl. now rewrite H. Qed.

Lemma int_digits_stop (c : uchar) (r : text) (acc : Z) (n : nat) :
  int_digit c = None -> is_underscore c = false ->
  int_digits acc n (c :: r) = Some (acc, n, c :: r).
Proof. intros H1 H2. simpl. now rewrite H1, H2. Qed.

(** A run of digits is read to its end. *)
Lemma int_digits_run (ds r : text) (acc : Z) (n : nat) :
  Forall (fun c => is_Some (int_digit c)) ds ->
  int_digits acc n (ds ++ r)
  = int_digits (text_value acc ds) (n + length ds) r.
Proof.
  intros H. revert acc n. induction H as [|d ds [v Hd] _ IH]; intros acc n.
  - simpl. now rewrite Nat.add_0_r.
  - rewrite <- app_comm_cons, (int_digits_digit d _ acc v) by done.
    rewrite IH, (text_value_cons d ds acc v) by done.
    cbn [length]. f_equal. lia.
Qed.

(** ... and so are the runs that follow it, each after its underscore, up
    to the whitespace at the end. *)
Lemma int_digits_underscored (more : list text) (ws : text) (acc : Z) (n : nat) :
  Forall digit_run more -> forallb int_space ws = true ->
  int_digits acc n (underscored more ++ ws)
  = Some (text_value acc (concat more), (n + length (concat more))%nat, ws).
Proof.
  intros H Hws. revert acc n. induction H as [|g more [Hne Hg] _ IH];
    intros acc n.
  - simpl. rewrite Nat.add_0_r. destruct ws as [|c ws]; [done|].
    cbn [forallb] in Hws. apply andb_prop in Hws as [Hc _].
    apply space_not_digit in Hc as (Hd & Hu & _).
    by apply int_digits_stop.
  - destruct g as [|d g]; [done|]. inversion Hg as [|? ? [v Hd] Hg']; subst.
    unfold underscored. cbn [map concat]. fold (underscored more).
    rewrite <- !app_assoc. cbn [app].
    rewrite (int_digits_underscore d _ acc v) by done.
    rewrite int_digits_run by done. rewrite IH.
    rewrite (text_value_cons d (g ++ concat more) acc v) by done.
    rewrite text_value_app. cbn [length]. rewrite length_app.
    do 2 f_equal. f_equal. lia.
Qed.

(** What [int_digits] has read is a run of digits and further runs, each
    after its underscore. *)
Lemma int_digits_inv (s rest : text) (acc v : Z) (n m : nat) :
  int_digits acc n s = Some (v, m, rest) ->
  exists ds more,
    s = ds ++ underscored more ++ rest
    /\ Forall (fun c => is_Some (int_digit c)) ds
    /\ Forall digit_run more
    /\ v = text_value acc (ds ++ concat more)
    /\ m = (n + length (ds ++ concat more))%nat.
Proof.
  remember (length s) as k eqn:Hk. revert s Hk acc n.
  induction k as [k IH] using lt_wf_ind. intros s Hk acc n H.
  destruct s as [|c r].
  - simpl in H. injection H as <- <- <-. exists [], []. simpl.
    rewrite Nat.add_0_r. repeat split; constructor.
  - destruct (int_digit c) as [vc|] eqn:Ec.
    + rewrite (int_digits_digit c r acc vc) in H by done.
      apply (IH (length r)) in H as (ds & more & -> & Hds & Hm & -> & ->);
        [|simpl in Hk; lia|done].
      exists (c :: ds), more.
      split; [done|]. split; [constructor; eauto|]. split; [done|].
      rewrite <- app_comm_cons. split.
      * now rewrite (text_value_cons c _ acc vc).
      * cbn [length]. lia.
    + destruct (is_underscore c) eqn:Eu.
      * apply bool_decide_eq_true_1 in Eu. subst c.
        destruct r as [|d r']; [simpl in H; discriminate|].
        destruct (int_digit d) as [vd|] eqn:Ed.
        2:{ simpl in H. rewrite Ed in H. discriminate. }
        rewrite (int_digits_underscore d r' acc vd) in H by done.
        apply (IH (length r')) in H as (ds & more & -> & Hds & Hm & -> & ->);
          [|simpl in Hk; lia|done].
        exists [], ((d :: ds) :: more).
        split.
        { unfold underscored. cbn [map concat app].
          fold (underscored more). now rewrite <- app_assoc. }
        split; [constructor|].
        split; [constructor; [|done]; split; [done|]; constructor; eauto|].
        cbn [concat app]. split.
        -- now rewrite (text_value_cons d _ acc vd).
        -- cbn [length]. lia.
      * rewrite int_digits_stop in H by done. injection H as <- <- <-.
        exists [], []. simpl. rewrite Nat.add_0_r. repeat split; constructor.
Qed.

Lemma int_sign_value (sg r : text) (d : uchar) :
  sg ∈ [[]; [Latin1 "+"]; [Latin1 "-"]] -> is_Some (int_digit d) ->
  int_sign (sg ++ d :: r) = (sign_value sg, d :: r).
Proof.
  intros Hsg Hd. apply digit_not_sign in Hd as (Hp & Hm & _).
  repeat (apply elem_of_cons in Hsg as [-> | Hsg]); try reflexivity.
  - simpl. now rewrite !bool_decide_eq_false_2.
  - by apply elem_of_nil in Hsg.
Qed.

(** [int] reads every string of the documented form ... *)
Lemma int_reads (max_str_digits : nat) (t : text) (z : Z) :
  int_literal max_str_digits t z -> int max_str_digits t = Ok z.
Proof.
  intros (ws1 & sg & ds & more & ws2 & -> & H1 & Hsg & Hruns & H2 & Hlim & ->).
  inversion Hruns as [|? ? [Hne Hds] Hmore]; subst.
  destruct ds as [|d ds]; [done|]. inversion Hds as [|? ? Hd Hds']; subst.
  unfold int.
  assert (Hdrop : dropwhile int_space (ws1 ++ sg ++ (d :: ds) ++ underscored more ++ ws2)
                  = sg ++ d :: ds ++ underscored more ++ ws2).
  { rewrite dropwhile_app_all by done.
    repeat (apply elem_of_cons in Hsg as [-> | Hsg]); try reflexivity.
    - simpl. now rewrite digit_not_space.
    - by apply elem_of_nil in Hsg. }
  rewrite Hdrop, int_sign_value by done.
  destruct Hd as [v Hd]. rewrite Hd.
  rewrite int_digits_run by done. rewrite int_digits_underscored by done.
  rewrite H2. rewrite <- text_value_app.
  replace (1 + length ds + length (concat more))%nat
    with (length ((d :: ds) ++ concat more))
    by (rewrite length_app; simpl; lia).
  rewrite Hlim. do 2 f_equal.
  unfold text_value at 2. simpl. now rewrite Hd.
Qed.

(** ... and nothing else. *)
Lemma int_read_inv (max_str_digits : nat) (t : text) (z : Z) :
  int max_str_digits t = Ok z -> int_literal max_str_digits t z.
Proof.
  unfold int. destruct (dropwhile_split int_space t) as (ws1 & Ht & H1).
  destruct (int_sign (dropwhile int_space t)) as [sign s] eqn:Es.
  assert (Hsg : exists sg, dropwhile int_space t = sg ++ s
                           /\ sg ∈ [[]; [Latin1 "+"]; [Latin1 "-"]]
                           /\ (forall d r, s = d :: r -> is_Some (int_digit d) ->
                               sign = sign_value sg)).
  { unfold int_sign in Es. destruct (dropwhile int_space t) as [|c r]; simpl in Es.
    - injection Es as <- <-. exists [].
      split; [done|]. split; [repeat constructor|]. intros; reflexivity.
    - destruct (bool_decide (c = Latin1 "+")) eqn:Ep.
      + apply bool_decide_eq_true_1 in Ep. injection Es as <- <-. subst c.
        exists [Latin1 "+"].
        split; [done|]. split; [repeat constructor|]. intros; reflexivity.
      + destruct (bool_decide (c = Latin1 "-")) eqn:Em.
        * apply bool_decide_eq_true_1 in Em. injection Es as <- <-. subst c.
          exists [Latin1 "-"].
          split; [done|]. split; [repeat constructor|]. intros; reflexivity.
        * injection Es as <- <-. exists [].
          split; [done|]. split; [repeat constructor|]. intros; reflexivity. }
  destruct Hsg as (sg & Hdrop & Hsg & Hsign).
  destruct s as [|d r]; [discriminate|].
  destruct (int_digit d) as [v0|] eqn:Ed; [|discriminate].
  destruct (int_digits v0 1 r) as [[[v digits] rest]|] eqn:Er; [|discriminate].
  destruct (forallb int_space rest) eqn:H2; [|discriminate].
  destruct (exceeds_limit max_str_digits digits) eqn:Hlim; [discriminate|].
  intros [= <-].
  apply int_digits_inv in Er as (ds & more & -> & Hds & Hmore & -> & ->).
  exists ws1, sg, (d :: ds), more, rest.
  split; [rewrite Ht at 1; rewrite Hdrop; reflexivity|].
  split; [done|]. split; [done|].
  split; [constructor; [|done]; split; [done|]; constructor; eauto|].
  split; [done|]. rewrite <- app_comm_cons. cbn [length]. split; [done|].
  f_equal; [eapply Hsign; eauto|].
  now rewrite (text_value_cons d _ 0 v0).
Qed.

(** [int] raises nothing but [ValueError]. *)
Lemma int_raises_ValueError (max_str_digits : nat) (t : text) (e : exn) :
  int max_str_digits t = Err e -> e = ValueError.
Proof.
  unfold int. destruct (int_sign _) as [sign s]. destruct s as [|d r].
  - by intros [= <-].
  - destruct (int_digit d); [|by intros [= <-]].
    destruct (int_digits _ _ _) as [[[v n] rest]|]; [|by intros [= <-]].
    destruct (forallb _ _); [|by intros [= <-]].
    destruct (exceeds_limit _ _); [by intros [= <-] | discriminate].
Qed.

(** A string that [int] reads holds only digits, whitespace, signs and
    underscores. *)
Lemma int_literal_chars (max_str_digits : nat) (t : text) (z : Z) :
  int_literal max_str_digits t z ->
  Forall (fun c => int_space c = true \/ is_Some (int_digit c)
                   \/ c ∈ [Latin1 "+"; Latin1 "-"; Latin1 "_"]) t.
Proof.
  intros (ws1 & sg & ds & more & ws2 & -> & H1 & Hsg & Hruns & H2 & _).
  inversion Hruns as [|? ? [_ Hds] Hmore]; subst.
  repeat apply Forall_app_2.
  - apply Forall_forall. intros c Hc%list_elem_of_In. left.
    by apply (proj1 (forallb_forall _ _) H1).
  - repeat (apply elem_of_cons in Hsg as [-> | Hsg]);
      [ constructor
      | constructor; [right; right; repeat constructor | constructor]
      | constructor; [right; right; repeat constructor | constructor]
      | by apply elem_of_nil in Hsg ].
  - eapply Forall_impl; [exact Hds|]. intros c Hc. by right; left.
  - unfold underscored. apply Forall_concat, Forall_map.
    eapply Forall_impl; [exact Hmore|]. intros g [_ Hg]. simpl.
    constructor; [right; right; repeat constructor|].
    eapply Forall_impl; [exact Hg|]. intros c Hc. by right; left.
  - apply Forall_forall. intros c Hc%list_elem_of_In. left.
    by apply (proj1 (forallb_forall _ _) H2).
Qed.

Lemma int_rejects (max_str_digits : nat) (s : str) :
  forallb int_alphabet s = false ->
  int max_str_digits (map Latin1 s) = Err ValueError.
Proof.
  intros H. destruct (int max_str_digits (map Latin1 s)) as [z|e] eqn:E.
  - exfalso. apply int_read_inv, int_literal_chars in E.
    induction s as [|a s IH]; [discriminate|]. simpl in *.
    inversion E as [|? ? Ha Hs]; subst.
    apply andb_false_iff in H as [H|H]; [|auto].
    unfold int_alphabet in H. destruct Ha as [Ha | [[v Ha] | Ha]].
    + rewrite Ha in H. now rewrite orb_true_r in H.
    + simpl in Ha. destruct (is_digit a); [done | discriminate].
    + repeat (apply elem_of_cons in Ha as [[= ->] | Ha]); try discriminate.
      by apply elem_of_nil in Ha.
  - apply int_raises_ValueError in E. now subst.
Qed.

(** A string of the digits [0] to [9] is read as its base-10 value, unless
    the digits are more than the limit allows. *)
Lemma int_digit_string (max_str_digits : nat) (ds : str) :
  ds <> [] -> forallb is_digit ds = true ->
  int max_str_digits (map Latin1 ds)
  = if exceeds_limit max_str_digits (length ds) then Err ValueError
    else Ok (decimal_value 0 ds).
Proof.
  intros Hne Hds. destruct ds as [|d ds]; [done|].
  pose proof (digits_latin1 _ Hds) as Hall. simpl in Hds.
  apply andb_prop in Hds as [Hd Hds].
  inversion Hall as [|? ? Hd' Hall']; subst.
  unfold int. simpl map. rewrite dropwhile_head by now apply digit_not_space.
  pose proof (int_sign_value [] (map Latin1 ds) (Latin1 d)) as Hs.
  cbn [app] in Hs. rewrite Hs by (done || constructor). clear Hs.
  simpl int_digit. rewrite Hd.
  rewrite <- (app_nil_r (map Latin1 ds)). rewrite int_digits_run by done.
  simpl. rewrite length_map. rewrite text_value_latin1 by done.
  destruct (exceeds_limit _ _); [done|].
  f_equal. unfold sign_value, decimal_value. simpl.
  destruct (fold_left _ _ _); reflexivity.
Qed.

Lemma lower_char_n (c : ascii) : lower_char c = "n" -> int_alphabet c = false.
Proof.
  destruct c as [[] [] [] [] [] [] [] []]; intros H;
    (reflexivity || discriminate H).
Qed.

(** [int] rejects every spelling of [nil]. *)
Lemma int_nil (max_str_digits : nat) (v : str) :
  lower v = lit "nil" -> int max_str_digits (map Latin1 v) = Err ValueError.
Proof.
  intros H. apply int_rejects.
  destruct v as [|c v]; [discriminate|]. simpl in H.
  injection H as Hc _. simpl. now rewrite (lower_char_n c Hc).
Qed.

(** ** The claims about the parsers *)

(** C6, as amended: the INTEGER parser is [int].  It reads exactly the
    strings made of whitespace, an optional sign, decimal digits with
    single underscores between digits, and whitespace, when the digits are
    no more than the interpreter's limit allows; it returns their base-10
    value with the sign.  On every other string it raises [ValueError].
    This holds of [int] on text of any characters, and so of the parser on
    the strings of the notifier.  In particular a string of the digits [0]
    to [9] that is not empty and within the limit is read as its base-10
    value. *)
Theorem C6_integer_parser (L : library) :
  let max_str_digits := int_max_str_digits L in
  (forall s v,
     TYPE_PARSER_MAP L INTEGER s = Ok v
     <-> exists z, v = PyInt z /\ int_literal max_str_digits (map Latin1 s) z)
  /\ (forall s e, TYPE_PARSER_MAP L INTEGER s = Err e -> e = ValueError)
  /\ (forall t z, int max_str_digits t = Ok z <-> int_literal max_str_digits t z)
  /\ (forall t e, int max_str_digits t = Err e -> e = ValueError)
  /\ (forall t, (forall z, ~ int_literal max_str_digits t z) ->
        int max_str_digits t = Err ValueError)
  /\ (forall ds, ds <> [] -> forallb is_digit ds = true ->
        TYPE_PARSER_MAP L INTEGER ds
        = if exceeds_limit max_str_digits (length ds) then Err ValueError
          else Ok (PyInt (decimal_value 0 ds))).
Proof.
  intros max_str_digits. unfold TYPE_PARSER_MAP, int_parser.
  fold max_str_digits. split; [|split; [|split; [|split; [|split]]]].
  - intros s v. split.
    + destruct (int max_str_digits (map Latin1 s)) as [z|e] eqn:E;
        [|discriminate].
      intros [= <-]. exists z. split; [done|]. by apply int_read_inv.
    + intros (z & -> & H%int_reads). now rewrite H.
  - intros s e.
    destruct (int max_str_digits (map Latin1 s)) as [z|e'] eqn:E;
      [discriminate|].
    intros [= <-]. by eapply int_raises_ValueError.
  - intros t z. split; [apply int_read_inv | apply int_reads].
  - intros t e. apply int_raises_ValueError.
  - intros t H. destruct (int max_str_digits t) as [z|e] eqn:E.
    + by apply int_read_inv, H in E.
    + apply int_raises_ValueError in E. now subst.
  - intros ds Hne Hds. rewrite int_digit_string by done.
    by destruct (exceeds_limit _ _).
Qed.

Lemma C6_integer_parser_witness :
  TYPE_PARSER_MAP cpython INTEGER (lit "123") = Ok (PyInt 123)
  /\ TYPE_PARSER_MAP cpython INTEGER (lit " -1_000 ") = Ok (PyInt (-1000))
  /\ int 4300 [Wide 1633 (Decimal_digit 1%fin); Wide 1632 (Decimal_digit 0%fin)]
     = Ok 10%Z.
Proof.
  destruct (C6_integer_parser cpython) as (Hs & _ & Ht & _ & _ & Hd).
  split; [|split].
  - apply (Hd (lit "123")); [discriminate | reflexivity].
  - apply Hs. exists (-1000)%Z. split; [reflexivity|].
    exists [Latin1 " "], [Latin1 "-"], [Latin1 "1"],
      [map Latin1 (lit "000")], [Latin1 " "].
    split; [reflexivity|]. split; [reflexivity|].
    split; [repeat constructor|].
    split; [repeat constructor; (discriminate || (eexists; reflexivity))|].
    split; [reflexivity|]. split; reflexivity.
  - apply Ht.
    exists [], [],
      [Wide 1633 (Decimal_digit 1%fin); Wide 1632 (Decimal_digit 0%fin)],
      [], [].
    split; [reflexivity|]. split; [reflexivity|].
    split; [repeat constructor|].
    split; [repeat constructor; (discriminate || (eexists; reflexivity))|].
    split; [reflexivity|]. split; reflexivity.
Defined.

(** C6 as written fails: strings with a sign, with whitespace around the
    digits or with an underscore between digits are not strings of digits,
    and are coerced. *)
Lemma C6_non_digits_accepted :
  Forall (fun '(s, z) =>
            forallb is_digit s = false
            /\ TYPE_PARSER_MAP cpython INTEGER s = Ok (PyInt z))
    [(lit "-12", (-12)%Z); (lit " 12 ", 12%Z); (lit "+5", 5%Z);
     (lit "1_000", 1000%Z)].
Proof. repeat constructor. Qed.

Lemma string_parser_str (L : library) (s r : str) :
  literal_eval L s = Ok (PyStr r) -> _string_parser L s = Ok (PyStr r).
Proof. intros H. unfold _string_parser. now rewrite H. Qed.

Lemma string_parser_other (L : library) (s : str) (v : pyobj) :
  literal_eval L s = Ok v -> (forall r, v <> PyStr r) ->
  _string_parser L s = Ok (PyStr s).
Proof.
  intros H Hv. unfold _string_parser. rewrite H.
  destruct v; try reflexivity. by destruct (Hv s0).
Qed.

Lemma string_parser_caught (L : library) (s : str) (e : exn) :
  literal_eval L s = Err e -> e = ValueError \/ e = SyntaxError ->
  _string_parser L s = Ok (PyStr s).
Proof. intros H [-> | ->]; unfold _string_parser; now rewrite H. Qed.

(** C9: an exception of [literal_eval] other than [ValueError] and
    [SyntaxError] is not caught by [_string_parser], which then raises it
    instead of returning its argument. *)
Theorem C9_string_parser_propagates (L : library) (s : str) (e : exn) :
  literal_eval L s = Err e -> e <> ValueError -> e <> SyntaxError ->
  _string_parser L s = Err e.
Proof.
  intros H Hv Hs. unfold _string_parser. rewrite H. by destruct e.
Qed.

Lemma C9_unhashable_set_element :
  _string_parser cpython (lit "{[]}") = Err TypeError.
Proof.
  apply C9_string_parser_propagates.
  - reflexivity.
  - discriminate.
  - discriminate.
Defined.

Example string_parser_quoted :
  _string_parser cpython (lit "'abc'") = Ok (PyStr (lit "abc")).
Proof. reflexivity. Qed.

Example string_parser_number :
  _string_parser cpython (lit "123") = Ok (PyStr (lit "123")).
Proof. reflexivity. Qed.

Example string_parser_word :
  _string_parser cpython (lit "X") = Ok (PyStr (lit "X")).
Proof. reflexivity. Qed.

(** ** Facts about the notifier *)

Section CallFacts.

Variable L : library.
Variable kwargs : gmap str str.

Lemma field_value_conn (f : field) (w w' : world) (r : result literal) :
  field_value L kwargs f w = (w', r) -> conn w' = conn w.
Proof.
  destruct f as [[[nullable ft] name] tmpl]. unfold field_value, bind, lift.
  destruct (format_map L tmpl kwargs) as [v|e]; [|by intros [= <- _]].
  destruct (null_override nullable v); [by intros [= <- _]|].
  destruct (TYPE_MAP !! ft) as [t|]; [|by intros [= <- _]]. simpl.
  destruct (TYPE_PARSER_MAP L t v); by intros [= <- _].
Qed.

Lemma field_value_fails (f : field) (w : world) :
  interpolation_fails L kwargs f \/ coercion_fails L kwargs f ->
  exists e w', field_value L kwargs f w = (w', Err e).
Proof.
  destruct f as [[[nullable ft] name] tmpl]. unfold field_value, bind, lift.
  intros [[e He] | (v & t & e & Hv & Hn & Ht & He)]; simpl in *.
  - rewrite He. eauto.
  - rewrite Hv, Hn, Ht. simpl. rewrite He. eauto.
Qed.

Lemma field_value_null (ft name tmpl v : str) (w : world) :
  format_map L tmpl kwargs = Ok v ->
  lower v ∈ [lit ""; lit "none"; lit "null"] ->
  field_value L kwargs (true, ft, name, tmpl) w
  = (World (conn w) (calls w ++ [Call_format_map tmpl]), Ok (V PyNone NULL)).
Proof.
  intros Hv Hin. unfold field_value, bind, lift. rewrite Hv.
  unfold null_override. simpl. now rewrite bool_decide_eq_true_2.
Qed.

Lemma field_value_parsed (nullable : bool) (ft name tmpl v : str)
    (t : LiteralTypes) (w : world) :
  format_map L tmpl kwargs = Ok v ->
  null_override nullable v = false ->
  TYPE_MAP !! ft = Some t ->
  field_value L kwargs (nullable, ft, name, tmpl) w
  = (World (conn w) (calls w ++ [Call_format_map tmpl; Call_parser t v]),
     parsed L t v).
Proof.
  intros Hv Hn Ht. unfold field_value, bind, lift, parsed.
  rewrite Hv, Hn, Ht. simpl. rewrite <- app_assoc. simpl.
  destruct (TYPE_PARSER_MAP L t v); reflexivity.
Qed.

Lemma set_fields_conn (fields : list field) (c c' : command) (w w' : world) :
  set_fields L kwargs fields c w = (w', Ok c') -> conn w' = conn w.
Proof.
  revert c w. induction fields as [|[[[nullable ft] name] tmpl] fields IH];
    intros c w; cbn [set_fields].
  - by intros [= <- _].
  - unfold bind at 1.
    destruct (field_value _ _ _ w) as [w1 [v|e]] eqn:E; [|discriminate].
    intros H%IH. apply field_value_conn in E. congruence.
Qed.

(** A failing field stops the loop, and the loop never touches the
    connection. *)
Lemma set_fields_fails (fields : list field) (c : command) (w : world) :
  (exists f, f ∈ fields /\ (interpolation_fails L kwargs f \/ coercion_fails L kwargs f)) ->
  exists e w', set_fields L kwargs fields c w = (w', Err e)
               /\ conn w' = conn w.
Proof.
  revert c w. induction fields as [|[[[nullable ft] name] tmpl] fields IH];
    intros c w (f & Hin & Hf).
  - by apply elem_of_nil in Hin.
  - cbn [set_fields]. unfold bind at 1.
    destruct (field_value _ _ _ w) as [w1 [v|e]] eqn:E.
    + apply elem_of_cons in Hin as [-> | Hin].
      * destruct (field_value_fails _ w Hf) as (e & w2 & E2). congruence.
      * destruct (IH (set c name v) w1) as (e & w2 & -> & Hc); [eauto|].
        apply field_value_conn in E. exists e, w2. split; congruence.
    + apply field_value_conn in E. eauto.
Qed.

Lemma set_fields_app (pre post : list field) (c : command) (w : world) :
  set_fields L kwargs (pre ++ post) c w
  = match set_fields L kwargs pre c w with
    | (w1, Ok c1) => set_fields L kwargs post c1 w1
    | (w1, Err e) => (w1, Err e)
    end.
Proof.
  revert c w. induction pre as [|[[[nullable ft] name] tmpl] pre IH];
    intros c w; [reflexivity|].
  rewrite <- app_comm_cons. cbn [set_fields]. unfold bind.
  destruct (field_value _ _ _ w) as [w1 [v|e]]; [apply IH | reflexivity].
Qed.

(** The loop appends one assignment per field and keeps the earlier ones. *)
Lemma set_fields_assignments (fields : list field) (c c' : command)
    (w w' : world) :
  set_fields L kwargs fields c w = (w', Ok c') ->
  exists more, assignments c' = assignments c ++ more
               /\ length more = length fields.
Proof.
  revert c w. induction fields as [|[[[nullable ft] name] tmpl] fields IH];
    intros c w; cbn [set_fields].
  - intros [= <- <-]. exists []. by rewrite app_nil_r.
  - unfold bind at 1.
    destruct (field_value _ _ _ w) as [w1 [v|e]]; [|discriminate].
    intros (more & -> & Hlen)%IH. simpl. rewrite <- app_assoc.
    eexists. split; [reflexivity|]. simpl. by rewrite Hlen.
Qed.

Lemma call_fails (self : notifier) (w : world) :
  (exists f, f ∈ _fields self
             /\ (interpolation_fails L kwargs f \/ coercion_fails L kwargs f)) ->
  exists e w', __call__ L kwargs self None w = (w', Err e)
               /\ executed (conn w') = executed (conn w).
Proof.
  intros H. unfold __call__. unfold bind.
  match goal with |- context [set_fields _ _ _ ?c w] =>
    destruct (set_fields_fails (_fields self) c w H) as (e & w' & -> & Hc)
  end.
  exists e, w'. by rewrite Hc.
Qed.

(** The loop body logs its library calls and returns the field's value. *)
Lemma field_value_literal (f : field) (w : world) :
  exists cs, field_value L kwargs f w
             = (World (conn w) (calls w ++ cs), field_literal L kwargs f).
Proof.
  destruct f as [[[nullable ft] name] tmpl].
  unfold field_value, field_literal, bind, lift, parsed.
  destruct (format_map L tmpl kwargs) as [v|e]; [|by eexists].
  destruct (null_override nullable v); [by eexists|].
  destruct (TYPE_MAP !! ft) as [t|]; [|by eexists]. simpl.
  rewrite <- app_assoc.
  destruct (TYPE_PARSER_MAP L t v); by eexists.
Qed.

Lemma set_fields_outcome (fields : list field) (c : command) (w : world) :
  exists cs,
    (set_fields L kwargs fields c w).1 = World (conn w) (calls w ++ cs)
    /\ match (set_fields L kwargs fields c w).2 with
       | Ok c' =>
           exists lits, assigned L kwargs fields lits
                        /\ c' = Command (table c) (kind c) (assignments c ++ lits)
       | Err e =>
           exists pre f post,
             fields = pre ++ f :: post
             /\ Forall (resolves L kwargs) pre
             /\ field_literal L kwargs f = Err e
       end.
Proof.
  revert c w. induction fields as [|[[[nullable ft] name] tmpl] fields IH];
    intros c w; cbn [set_fields].
  - exists []. simpl. rewrite !app_nil_r. split; [by destruct w|].
    exists []. split; [constructor|]. rewrite app_nil_r. by destruct c.
  - unfold bind at 1 2.
    destruct (field_value_literal (nullable, ft, name, tmpl) w) as [cs ->].
    destruct (field_literal L kwargs (nullable, ft, name, tmpl)) as [v|e] eqn:Ev.
    + destruct (IH (set c name v) (World (conn w) (calls w ++ cs)))
        as (cs' & Hw & Hr).
      exists (cs ++ cs'). simpl in Hw. rewrite Hw, app_assoc. split; [done|].
      destruct (set_fields _ _ fields _ _).2 as [c'|e].
      * destruct Hr as (lits & Hl & ->). exists ((name, v) :: lits). split.
        -- constructor; [by split|done].
        -- simpl. now rewrite <- app_assoc.
      * destruct Hr as (pre & f & post & -> & Hpre & Hf).
        exists ((nullable, ft, name, tmpl) :: pre), f, post.
        repeat split; [|done]. constructor; [by exists v | done].
    + exists cs. split; [done|]. simpl.
      exists [], (nullable, ft, name, tmpl), fields. repeat split; done.
Qed.

Lemma null_parser_nil (v : str) : lower v = lit "nil" -> _null_parser v = Ok PyNone.
Proof. intros H. unfold _null_parser. now rewrite H. Qed.

(** ** The claims about [__call__] *)

(** C1: when the template of any field fails to interpolate (a missing
    placeholder key makes [format_map] raise [KeyError]) or the parser of
    any field's declared type fails on the interpolated string, the call
    raises and the connection is left as it was: [execute] is not called,
    no command is submitted. *)
Theorem C1_failed_call_executes_nothing (self : notifier) (w : world) :
  (exists f, f ∈ _fields self
             /\ (interpolation_fails L kwargs f \/ coercion_fails L kwargs f)) ->
  exists e w', __call__ L kwargs self None w = (w', Err e)
               /\ executed (conn w') = executed (conn w).
Proof. apply call_fails. Qed.


(** C7: with attachments the call raises [OperationNotSupportedError] at
    once: the world is returned as it was, with no library call made (no
    interpolation, no parser) and nothing executed. *)
Theorem C7_attachments_unsupported (self : notifier) (a : pyobj) (w : world) :
  __call__ L kwargs self (Some a) w = (w, Err OperationNotSupportedError).
Proof. reflexivity. Qed.

(** C8: for a nullable field whose declared type is known, the null is
    produced without a parser exactly when the interpolated string is, in
    lower case, one of the empty string, [none] and [null].  A string that
    is [nil] in lower case is not in that set: it is handed, as it is, to
    the parser of the declared type, although [_null_parser] accepts it;
    for an INTEGER field that parser is [int], which raises, and so does
    every call of a notifier holding the field, with nothing executed. *)
Theorem C8_nil_is_not_null (ft name tmpl v : str) (t : LiteralTypes) :
  format_map L tmpl kwargs = Ok v ->
  TYPE_MAP !! ft = Some t ->
  (forall w,
     field_value L kwargs (true, ft, name, tmpl) w
     = (World (conn w) (calls w ++ [Call_format_map tmpl]), Ok (V PyNone NULL))
     <-> lower v ∈ [lit ""; lit "none"; lit "null"])
  /\ (lower v = lit "nil" ->
      (forall w,
         field_value L kwargs (true, ft, name, tmpl) w
         = (World (conn w)
              (calls w ++ [Call_format_map tmpl; Call_parser t v]),
            parsed L t v))
      /\ _null_parser v = Ok PyNone
      /\ (t = INTEGER ->
          parsed L t v = Err ValueError
          /\ forall self w,
               (true, ft, name, tmpl) ∈ _fields self ->
               exists e w', __call__ L kwargs self None w = (w', Err e)
                            /\ executed (conn w') = executed (conn w))).
Proof.
  intros Hv Ht. split.
  - intros w. split; [|by apply field_value_null].
    intros H. destruct (decide (lower v ∈ [lit ""; lit "none"; lit "null"]))
      as [Hin|Hin]; [done|].
    rewrite (field_value_parsed true ft name tmpl v t) in H; try done.
    + injection H as H _. apply app_inv_head in H. discriminate.
    + unfold null_override. now rewrite bool_decide_eq_false_2.
  - intros Hnil.
    assert (Hn : null_override true v = false).
    { unfold null_override. now rewrite Hnil. }
    split; [intros w; by apply field_value_parsed|].
    split; [by apply null_parser_nil|].
    intros ->.
    assert (Hp : parsed L INTEGER v = Err ValueError).
    { unfold parsed, TYPE_PARSER_MAP, int_parser. now rewrite int_nil. }
    split; [exact Hp|]. intros self w Hin.
    apply call_fails. exists (true, ft, name, tmpl). split; [done|]. right.
    exists v, INTEGER, ValueError. repeat split; try done.
    unfold parsed in Hp. destruct (TYPE_PARSER_MAP L INTEGER v); congruence.
Qed.

End CallFacts.

Example events_null_count :
  __call__ cpython (notification "X" "") events None fresh
  = (World
       (Connection
          [ Command (lit "Events") Insert
              [ (lit "Name", V (PyStr (lit "X")) STRING);
                (lit "Count", V PyNone NULL) ] ]
          (fun _ _ => None))
       [ Call_format_map (lit "{name}"); Call_parser STRING (lit "X");
         Call_format_map (lit "{count}") ],
     Ok tt).
Proof. vm_compute. reflexivity. Qed.

Example events_missing_key :
  __call__ cpython {[ lit "name" := lit "X" ]} events None fresh
  = (World (Connection [] (fun _ _ => None))
       [ Call_format_map (lit "{name}"); Call_parser STRING (lit "X");
         Call_format_map (lit "{count}") ],
     Err (KeyError (lit "count"))).
Proof. vm_compute. reflexivity. Qed.

Lemma C1_failed_call_witness :
  exists e w',
    __call__ cpython {[ lit "name" := lit "X" ]} events None fresh = (w', Err e)
    /\ executed (conn w') = executed (conn fresh).
Proof.
  apply C1_failed_call_executes_nothing.
  exists (true, lit "integer", lit "Count", lit "{count}"). split.
  - apply (bool_decide_unpack _). vm_compute. exact I.
  - left. exists (KeyError (lit "count")). vm_compute. reflexivity.
Defined.


Lemma C8_nil_is_not_null_witness :
  field_value cpython (notification "X" "NiL")
    (true, lit "integer", lit "Count", lit "{count}") fresh
  = (World (conn fresh)
       (calls fresh ++ [Call_format_map (lit "{count}");
                        Call_parser INTEGER (lit "NiL")]),
     Err ValueError)
  /\ _null_parser (lit "NiL") = Ok PyNone.
Proof.
  destruct (C8_nil_is_not_null cpython (notification "X" "NiL")
              (lit "integer") (lit "Count") (lit "{count}") (lit "NiL") INTEGER)
    as [_ H].
  - vm_compute. reflexivity.
  - vm_compute. reflexivity.
  - specialize (H eq_refl). destruct H as (Hf & Hn & Hi).
    split; [|exact Hn]. rewrite Hf.
    destruct (Hi eq_refl) as [-> _]. reflexivity.
Defined.


(** * Further facts *)

(** ** More about [_parse_field_mapping_line] *)

Lemma rstrip_app_space (a b : str) :
  forallb isspace b = true -> rstrip (a ++ b) = rstrip a.
Proof.
  intros H. unfold rstrip. rewrite rev_app_distr.
  now rewrite dropwhile_app_all by now rewrite forallb_rev'.
Qed.

Lemma strip_padded (ws1 s ws2 : str) :
  forallb isspace ws1 = true -> forallb isspace ws2 = true ->
  strip (ws1 ++ s ++ ws2) = strip s.
Proof.
  intros H1 H2. unfold strip, lstrip. rewrite dropwhile_app_all by done.
  destruct (forallb isspace s) eqn:E.
  - rewrite dropwhile_app_all by done.
    now rewrite (dropwhile_all _ ws2), (dropwhile_all _ s).
  - rewrite dropwhile_app_stop by done. now apply rstrip_app_space.
Qed.

(** Whitespace before and after a mapping line does not change what the
    line means, nor how it fails. *)
Theorem parse_ignores_surrounding_whitespace (ws1 line ws2 : str) :
  forallb isspace ws1 = true -> forallb isspace ws2 = true ->
  _parse_field_mapping_line (ws1 ++ line ++ ws2)
  = _parse_field_mapping_line line.
Proof.
  intros H1 H2. unfold _parse_field_mapping_line.
  now rewrite strip_padded.
Qed.

Lemma parse_ignores_surrounding_whitespace_witness :
  _parse_field_mapping_line (lit "    " ++ lit "int count: {c}" ++ ["009"; " "])
  = _parse_field_mapping_line (lit "int count: {c}").
Proof.
  apply parse_ignores_surrounding_whitespace; reflexivity.
Defined.

(** The scanner's assertions are the only ones that can fail after the
    test on the first token. *)
Lemma finish_Err_inv (nullable : bool) (original : str) (st : scan) (e : exn) :
  finish nullable original st = Err e ->
  e = AssertionError Type_not_in_TYPE_MAP
  \/ e = AssertionError (Malformed_entry (strip original)).
Proof.
  unfold finish.
  destruct (strip_if_truthy (field_name st)),
           (strip_if_truthy (value_template st)); try (intros [= <-]; auto).
  destruct (_ && _); [destruct (TYPE_MAP !! _)|]; intros [= <-]; auto.
Qed.

(** A line is rejected in one of three ways only: [IndexError] from the
    test on the first token, the "Malformed field mapping entry" assertion
    with the trimmed line as its text, or the bare assertion on the type. *)
Theorem parse_raises_only (line : str) (e : exn) :
  _parse_field_mapping_line line = Err e ->
  e = IndexError
  \/ e = AssertionError (Malformed_entry (strip line))
  \/ e = AssertionError Type_not_in_TYPE_MAP.
Proof.
  unfold _parse_field_mapping_line, nullable_prefix.
  destruct (split (strip line) !! 0%nat) as [tok|]; [|intros [= <-]; auto].
  destruct (bool_decide _); intros [-> | ->]%finish_Err_inv;
    rewrite ?strip_idem; auto.
Qed.

Lemma parse_raises_only_witness :
  AssertionError Type_not_in_TYPE_MAP = IndexError
  \/ AssertionError Type_not_in_TYPE_MAP
     = AssertionError (Malformed_entry (strip (lit "text name: {x}")))
  \/ AssertionError Type_not_in_TYPE_MAP = AssertionError Type_not_in_TYPE_MAP.
Proof.
  apply (parse_raises_only (lit "text name: {x}")). reflexivity.
Defined.

(** Once the type has been read, the scan does not look at it again. *)
Lemma scan_char_retype (ft ft' : str) (n : str) (vt : option str) (b : bool)
    (c : ascii) :
  exists n' vt' b',
    scan_char (Scan ft (Some n) vt b) c = Scan ft (Some n') vt' b'
    /\ scan_char (Scan ft' (Some n) vt b) c = Scan ft' (Some n') vt' b'.
Proof.
  unfold scan_char. simpl. destruct vt as [t|]; [eauto|].
  destruct (negb b && bool_decide (c = ":")); [eauto|].
  destruct (b && bool_decide (c = "]")); [eauto|].
  destruct (negb (truthy n) && bool_decide (c = "[")); eauto.
Qed.

Lemma scan_line_retype (ft ft' : str) (l : str) (n : str) (vt : option str)
    (b : bool) :
  exists n' vt' b',
    scan_line (Scan ft (Some n) vt b) l = Scan ft (Some n') vt' b'
    /\ scan_line (Scan ft' (Some n) vt b) l = Scan ft' (Some n') vt' b'.
Proof.
  revert n vt b. induction l as [|c l IH]; intros n vt b; [simpl; eauto|].
  change (scan_line ?st (c :: l)) with (scan_line (scan_char st c) l).
  destruct (scan_char_retype ft ft' n vt b c) as (n1 & vt1 & b1 & -> & ->).
  apply IH.
Qed.

(** The assertion on the type comes after the one on the form. *)
Lemma finish_unknown_type (nullable : bool) (original original' ty ty' : str)
    (fn vt : option str) (b : bool) (f : field) :
  finish nullable original (Scan ty fn vt b) = Ok f ->
  ty' <> [] -> existsb isspace ty' = false ->
  TYPE_MAP !! lower ty' = None ->
  finish nullable original' (Scan ty' fn vt b)
  = Err (AssertionError Type_not_in_TYPE_MAP).
Proof.
  unfold finish. simpl. intros H Hne Hty Hk.
  destruct (strip_if_truthy fn) as [n|]; [|discriminate].
  destruct (strip_if_truthy vt) as [t|]; [|discriminate].
  rewrite (strip_token ty') by done. rewrite Hk.
  destruct (truthy (lower (strip ty)) && truthy n && truthy t && negb b) eqn:E;
    [|discriminate].
  apply andb_prop in E as [[[_ ->]%andb_prop ->]%andb_prop ->].
  destruct ty'; [done|]. reflexivity.
Qed.

(** A line that is well formed but for its type fails the bare assertion
    on the type, not the "Malformed field mapping entry" one: when a line
    is accepted, the same line with another type token in its place, one
    that is no key of [TYPE_MAP] in lower case, is rejected by
    [assert field_type in TYPE_MAP].  This holds whatever form the name
    has. *)
Theorem parse_unknown_type (line line' p ty ty' rest name tmpl : str)
    (w : ascii) (b : bool) :
  strip line = p ++ ty ++ w :: rest ->
  strip line' = p ++ ty' ++ w :: rest ->
  keyword_prefix p = true -> isspace w = true ->
  ty <> [] -> existsb isspace ty = false ->
  ty' <> [] -> existsb isspace ty' = false -> lower ty' <> lit "nullable" ->
  _parse_field_mapping_line line = Ok (b, lower ty, name, tmpl) ->
  TYPE_MAP !! lower ty' = None ->
  _parse_field_mapping_line line'
  = Err (AssertionError Type_not_in_TYPE_MAP).
Proof.
  intros Hline Hline' Hp Hw Hne Hty Hne' Hty' Hkw' Hok Hk.
  assert (Hkw : lower ty <> lit "nullable").
  { apply parse_Ok in Hok as [[k Hk'] _]. by eapply TYPE_MAP_not_keyword. }
  rewrite (parse_after_type line p ty rest w) in Hok by done.
  rewrite (parse_after_type line' p ty' rest w) by done.
  destruct (scan_line_retype ty ty' rest [] None false)
    as (n & vt & br & E & ->).
  rewrite E in Hok. by eapply finish_unknown_type.
Qed.

Lemma parse_unknown_type_witness :
  _parse_field_mapping_line (lit "nullable text [a b]: {x}")
  = Err (AssertionError Type_not_in_TYPE_MAP).
Proof.
  apply (parse_unknown_type (lit "nullable string [a b]: {x}")
           (lit "nullable text [a b]: {x}") (lit "nullable ")
           (lit "string") (lit "text") (lit "[a b]: {x}")
           (lit "a b") (lit "{x}") " " true);
    try reflexivity; try discriminate.
Defined.

(** *** The layout of an accepted line *)

(** In the name and template states the type is no longer touched. *)
Lemma scan_char_name_state (ft n : str) (b : bool) (c : ascii) :
  (c = ":" /\ b = false
   /\ scan_char (Scan ft (Some n) None b) c = Scan ft (Some n) (Some []) false)
  \/ exists n' b', scan_char (Scan ft (Some n) None b) c = Scan ft (Some n') None b'.
Proof.
  unfold scan_char. simpl.
  destruct b; simpl.
  - right. destruct (bool_decide (c = "]")); [eauto|].
    destruct (negb (truthy n) && bool_decide (c = "[")); eauto.
  - destruct (bool_decide (c = ":")) eqn:E.
    + left. apply bool_decide_eq_true_1 in E. auto.
    + right. destruct (negb (truthy n) && bool_decide (c = "[")); eauto.
Qed.

Lemma scan_line_snoc (st : scan) (l : str) (c : ascii) :
  scan_line st (l ++ [c]) = scan_char (scan_line st l) c.
Proof. unfold scan_line. now rewrite fold_left_app. Qed.

Lemma scan_line_scanned (body : str) :
  scanned body (scan_line scan_start body).
Proof.
  induction body as [|c body IH] using rev_ind.
  - split; [reflexivity|]. simpl. auto.
  - rewrite scan_line_snoc.
    destruct (scan_line scan_start body) as [ft fn vt b].
    destruct IH as [Hft IH]. simpl in Hft, IH.
    destruct fn as [n|], vt as [t|]; try done.
    + destruct IH as (w & region & -> & Hw & -> & Hs).
      unfold scan_char. simpl. split; [done|]. simpl.
      exists w, region. repeat split; try done.
      rewrite <- !app_assoc. simpl. now rewrite <- app_assoc.
    + destruct IH as (w & region & -> & Hw & Hs).
      destruct (scan_char_name_state ft n b c)
        as [(-> & -> & E) | (n' & b' & E)]; rewrite E.
      * split; [done|]. simpl. exists w, region. repeat split; try done.
        now rewrite <- app_assoc.
      * split; [done|]. simpl. exists w, (region ++ [c]).
        repeat split; try done.
        -- now rewrite <- app_assoc.
        -- rewrite scan_line_snoc, Hs. exact E.
    + destruct IH as [-> ->]. unfold scan_char. simpl.
      destruct (isspace c) eqn:Ec.
      * split; [done|]. simpl. exists c, []. repeat split; done.
      * split; simpl.
        -- rewrite existsb_app, Hft. simpl. now rewrite Ec.
        -- done.
Qed.

Lemma strip_if_truthy_inv (o : option str) (s : str) :
  strip_if_truthy o = Some s -> s <> [] -> exists n, o = Some n /\ s = strip n.
Proof.
  destruct o as [x|]; simpl; [|discriminate].
  destruct x; simpl; intros [= <-]; [done|]. eauto.
Qed.

Lemma finish_Ok_inv (nullable b : bool) (original ty name tmpl : str)
    (st : scan) :
  finish nullable original st = Ok (b, ty, name, tmpl) ->
  b = nullable
  /\ ty = lower (strip (field_type st)) /\ ty <> []
  /\ is_Some (TYPE_MAP !! ty)
  /\ in_brackets st = false
  /\ exists n t, field_name st = Some n /\ value_template st = Some t
                 /\ name = strip n /\ tmpl = strip t.
Proof.
  unfold finish.
  destruct (strip_if_truthy (field_name st)) as [n|] eqn:En; [|discriminate].
  destruct (strip_if_truthy (value_template st)) as [t|] eqn:Et; [|discriminate].
  destruct (truthy _ && truthy n && truthy t && negb _) eqn:E; [|discriminate].
  destruct (TYPE_MAP !! _) eqn:Ek; [|discriminate].
  intros [= <- <- <- <-].
  apply andb_prop in E as [[[Hty Hn]%andb_prop Ht]%andb_prop Hb].
  apply negb_true_iff in Hb.
  apply strip_if_truthy_inv in En as (n0 & En & ->); [|by destruct n].
  apply strip_if_truthy_inv in Et as (t0 & Et & ->); [|by destruct t].
  split; [done|]. split; [done|].
  split; [intros E'; now rewrite E' in Hty|].
  split; [by eexists|]. split; [done|]. eauto 10.
Qed.

(** The first token of [split]: whitespace, the token, and then the end
    or a whitespace character. *)
Lemma split_from_head_inv (s cur tok : str) :
  split_from cur s !! 0%nat = Some tok ->
  exists ws tk rest,
    s = ws ++ tk ++ rest /\ tok = cur ++ tk /\ tok <> []
    /\ forallb isspace ws = true /\ (cur <> [] -> ws = [])
    /\ existsb isspace tk = false
    /\ (rest = [] \/ exists c r, rest = c :: r /\ isspace c = true).
Proof.
  revert cur. induction s as [|c s IH]; intros cur; simpl.
  - destruct cur as [|x cur]; [discriminate|]. intros [= <-].
    exists [], [], []. rewrite !app_nil_r. repeat split; try done; auto.
  - destruct (isspace c) eqn:Ec.
    + destruct cur as [|x cur].
      * intros (ws & tk & rest & -> & -> & Hne & Hws & _ & Htk & Hr)%IH.
        exists (c :: ws), tk, rest. repeat split; try done.
        simpl. now rewrite Ec.
      * intros [= <-]. exists [], [], (c :: s). rewrite !app_nil_r.
        repeat split; try done; eauto.
    + intros (ws & tk & rest & Hs & -> & Hne & Hws & Hcur & Htk & Hr)%IH.
      rewrite Hcur in Hs by (destruct cur; discriminate). simpl in Hs.
      exists [], (c :: tk), rest.
      split; [simpl; now rewrite Hs|].
      split; [now rewrite <- app_assoc|].
      split; [done|]. split; [done|]. split; [done|].
      split; [simpl; now rewrite Ec, Htk | done].
Qed.

(** The statements before the loop, read backwards: the text handed to
    the scanner is the trimmed line without the keyword prefix. *)
Lemma nullable_prefix_inv (line body : str) (b : bool) :
  nullable_prefix (strip line) = Ok (b, body) -> body <> [] ->
  exists p, strip line = p ++ body /\ keyword_prefix p = true /\ b = truthy p.
Proof.
  unfold nullable_prefix, split.
  destruct (split_from [] (strip line) !! 0%nat) as [tok|] eqn:E; [|discriminate].
  destruct (bool_decide (lower tok = lit "nullable")) eqn:Ek.
  - intros [= <- <-] Hne. apply bool_decide_eq_true_1 in Ek.
    apply split_from_head_inv in E
      as (ws & tk & rest & Hs & -> & _ & Hws & _ & Htk & Hr).
    simpl in Ek.
    assert (ws = []) as ->.
    { destruct (strip_head line) as [H0 | (c & r & H0 & Hc)];
        rewrite H0 in Hs; destruct ws as [|x ws]; try done.
      simpl in Hs, Hws. injection Hs as -> _.
      apply andb_prop in Hws as [Hx _]. congruence. }
    simpl in Hs.
    assert (Hlen : length tk = 8%nat).
    { rewrite <- lower_length, Ek. reflexivity. }
    assert (Hd : drop 8 (tk ++ rest) = rest)
      by (rewrite <- Hlen; apply drop_app_length).
    revert Hne. rewrite Hs, Hd. intros Hne.
    destruct (dropwhile_split isspace rest) as (gap & Hrest & Hgap).
    fold (lstrip rest) in Hrest.
    assert (Hnb : forallb isspace (lstrip rest) = false).
    { destruct (forallb isspace (lstrip rest)) eqn:Hb; [|done].
      exfalso. apply Hne. unfold strip, rstrip.
      rewrite dropwhile_all; [done|]. now rewrite forallb_rev'. }
    assert (Hbody : strip rest = lstrip rest).
    { unfold strip. apply (rstrip_app_inv (tk ++ gap)); [done|].
      rewrite <- app_assoc, <- Hrest, <- Hs. apply rstrip_strip. }
    rewrite Hbody.
    exists (tk ++ gap). rewrite <- app_assoc, <- Hrest. split; [done|].
    assert (Hg : gap <> []).
    { intros ->. simpl in Hrest.
      destruct Hr as [-> | (c & r & -> & Hc)]; [done|].
      destruct (lstrip (c :: r)) as [|y l] eqn:El; [done|].
      apply dropwhile_head_false in El. injection Hrest as -> _. congruence. }
    split.
    + unfold keyword_prefix.
      destruct (tk ++ gap) as [|x q] eqn:Eq.
      { apply app_eq_nil in Eq as [_ ->]. done. }
      rewrite <- Eq.
      assert (take 8 (tk ++ gap) = tk) as ->
        by (rewrite <- Hlen; apply take_app_length).
      assert (drop 8 (tk ++ gap) = gap) as ->
        by (rewrite <- Hlen; apply drop_app_length).
      rewrite bool_decide_eq_true_2 by done. rewrite Hgap.
      destruct gap; done.
    + destruct tk; [discriminate|]. reflexivity.
  - intros [= <- <-] _. exists []. done.
Qed.

(** Every accepted line has the layout of the docstring: an optional
    [nullable] keyword, a type token without whitespace that is a key of
    [TYPE_MAP] up to letter case, a whitespace character, a name region
    whose scan ends outside brackets, the [:] that ends it, and the
    template.  The returned flag tells whether the keyword is there, the
    returned type is the token in lower case, the returned name is the
    scanned name, trimmed, and the returned template is everything after
    that [:], trimmed. *)
Theorem accepted_line_layout (line ty name tmpl : str) (b : bool) :
  _parse_field_mapping_line line = Ok (b, ty, name, tmpl) ->
  exists p token w region tail n,
    strip line = p ++ token ++ w :: region ++ ":" :: tail
    /\ keyword_prefix p = true /\ b = truthy p
    /\ token <> [] /\ existsb isspace token = false
    /\ ty = lower token /\ is_Some (TYPE_MAP !! ty)
    /\ isspace w = true
    /\ scan_line (Scan token (Some []) None false) region
       = Scan token (Some n) None false
    /\ name = strip n /\ tmpl = strip tail.
Proof.
  unfold _parse_field_mapping_line.
  destruct (nullable_prefix (strip line)) as [[b' body]|] eqn:Ep; [|discriminate].
  intros (-> & Hty & Hne & Hk & Hb & n & t & Hn & Ht & -> & ->)%finish_Ok_inv.
  destruct (scan_line_scanned body) as [Hft Hs].
  destruct (scan_line scan_start body) as [ft fn vt br]. simpl in *.
  subst fn vt br.
  destruct Hs as (w & region & Hbody & Hw & _ & Hscan).
  assert (Hft0 : ft <> []).
  { intros ->. apply Hne. rewrite Hty. reflexivity. }
  rewrite (strip_token ft) in Hty by done.
  apply nullable_prefix_inv in Ep as (p & Hline & Hp & ->).
  - exists p, ft, w, region, t, n. rewrite Hline, Hbody. repeat split; done.
  - rewrite Hbody. by destruct ft.
Qed.

Lemma accepted_line_layout_witness :
  exists p token w region tail n,
    strip (lit " Nullable INT [a:b] : {x}:{y} ")
    = p ++ token ++ w :: region ++ ":" :: tail
    /\ keyword_prefix p = true /\ true = truthy p
    /\ token <> [] /\ existsb isspace token = false
    /\ lit "int" = lower token /\ is_Some (TYPE_MAP !! lit "int")
    /\ isspace w = true
    /\ scan_line (Scan token (Some []) None false) region
       = Scan token (Some n) None false
    /\ lit "a:b" = strip n /\ lit "{x}:{y}" = strip tail.
Proof.
  apply (accepted_line_layout (lit " Nullable INT [a:b] : {x}:{y} ")).
  vm_compute. reflexivity.
Defined.

(** ** More about [__call__] *)

Section MoreCallFacts.

Variable L : library.
Variable kwargs : gmap str str.

(** When every field has a value, the call hands the connection exactly
    one command: the notifier's table, an insert or an update by the
    command type, and one assignment per field in field order, under the
    field's name and with the field's value.  The call's result is the
    connection's verdict on that command. *)
Theorem call_executes_the_assignments (self : notifier) (w : world)
    (lits : list (str * literal)) :
  assigned L kwargs (_fields self) lits ->
  let c := Command (_table self) (command_kind self) lits in
  conn (__call__ L kwargs self None w).1
  = Connection (executed (conn w) ++ [c]) (refuses (conn w))
  /\ (__call__ L kwargs self None w).2
     = match refuses (conn w) (executed (conn w)) c with
       | Some e => Err e
       | None => Ok tt
       end.
Proof.
  intros Ha c. unfold __call__, bind.
  match goal with |- context [set_fields _ _ _ ?c0 w] => set (c0' := c0) end.
  assert (H0 : c0' = Command (_table self) (command_kind self) []).
  { subst c0'. unfold command_kind. by destruct (bool_decide _). }
  destruct (set_fields_outcome L kwargs (_fields self) c0' w) as (cs & Hw & Hr).
  destruct (set_fields L kwargs (_fields self) c0' w) as [w1 [c1|e]];
    simpl in Hw, Hr.
  - destruct Hr as (lits' & Ha' & ->). subst w1. rewrite H0. simpl.
    assert (lits' = lits) as ->; [|done].
    clear -Ha Ha'. revert lits' Ha'.
    induction Ha as [|f a fs ls [Hn Hv] _ IH]; intros lits' Ha';
      inversion Ha' as [|f' a' fs' ls' [Hn' Hv'] Hrest]; subst; [done|].
    f_equal; [|by apply IH].
    destruct a, a'. simpl in *. congruence.
  - exfalso. destruct Hr as (pre & f & post & Hf & _ & He).
    rewrite Hf in Ha. apply Forall2_app_inv_l in Ha as (l1 & l2 & _ & Ha & _).
    inversion Ha as [|? a ? ? [_ Hv] _]; subst. congruence.
Qed.

(** When a field has no value, the call raises what the first such field
    raised and leaves the connection as it was. *)
Theorem call_raises_the_first_failure (self : notifier) (w : world)
    (pre post : list field) (f : field) (e : exn) :
  _fields self = pre ++ f :: post ->
  Forall (resolves L kwargs) pre ->
  field_literal L kwargs f = Err e ->
  conn (__call__ L kwargs self None w).1 = conn w
  /\ (__call__ L kwargs self None w).2 = Err e.
Proof.
  intros Hf Hpre He. unfold __call__, bind.
  match goal with |- context [set_fields _ _ _ ?c0 w] => set (c0' := c0) end.
  destruct (set_fields_outcome L kwargs (_fields self) c0' w) as (cs & Hw & Hr).
  destruct (set_fields L kwargs (_fields self) c0' w) as [w1 [c1|e']];
    simpl in Hw, Hr.
  - exfalso. destruct Hr as (lits & Ha & _). rewrite Hf in Ha.
    apply Forall2_app_inv_l in Ha as (l1 & l2 & _ & Ha & _).
    inversion Ha as [|? a ? ? [_ Hv] _]; subst. congruence.
  - subst w1. simpl. split; [done|]. f_equal.
    destruct Hr as (pre' & f' & post' & Hf' & Hpre' & He').
    rewrite Hf in Hf'. clear -Hf' Hpre Hpre' He He'.
    revert pre' Hf' Hpre'. induction Hpre as [|g pre [v Hg] _ IH];
      intros pre' Hf' Hpre'.
    + destruct pre' as [|g' pre']; simpl in Hf'.
      * injection Hf' as -> _. congruence.
      * injection Hf' as -> _. inversion Hpre' as [|? ? [v Hv] _]; subst.
        congruence.
    + destruct pre' as [|g' pre']; simpl in Hf'.
      * injection Hf' as <- _. congruence.
      * injection Hf' as <- Hf'. inversion Hpre'; subst. by apply (IH pre').
Qed.

(** Whatever its arguments, a call asks the connection to execute at most
    one command, after the ones it had executed, and does not change what
    the connection refuses. *)
Theorem call_executes_at_most_once (self : notifier)
    (attachments : option pyobj) (w : world) :
  let w' := (__call__ L kwargs self attachments w).1 in
  refuses (conn w') = refuses (conn w)
  /\ (executed (conn w') = executed (conn w)
      \/ exists c, executed (conn w') = executed (conn w) ++ [c]
                   /\ table c = _table self /\ kind c = command_kind self
                   /\ length (assignments c) = length (_fields self)).
Proof.
  destruct attachments as [a|]; [simpl; auto|].
  unfold __call__, bind.
  match goal with |- context [set_fields _ _ _ ?c0 w] => set (c0' := c0) end.
  assert (H0 : c0' = Command (_table self) (command_kind self) []).
  { subst c0'. unfold command_kind. by destruct (bool_decide _). }
  destruct (set_fields_outcome L kwargs (_fields self) c0' w) as (cs & Hw & Hr).
  destruct (set_fields L kwargs (_fields self) c0' w) as [w1 [c1|e']];
    simpl in Hw, Hr; subst w1; simpl; [|auto].
  split; [done|]. right. exists c1. destruct Hr as (lits & Ha & ->).
  rewrite H0. simpl. repeat split; try done.
  symmetry. by eapply Forall2_length.
Qed.

End MoreCallFacts.

(** ** [SQLNotifier.__init__] *)

Import SQLNotifierSetup.

Lemma lower_char_idem (c : ascii) : lower_char (lower_char c) = lower_char c.
Proof. destruct c as [[] [] [] [] [] [] [] []]; reflexivity. Qed.

Lemma lower_idem (s : str) : lower (lower s) = lower s.
Proof.
  induction s as [|c s IH]; [done|]. simpl. now rewrite lower_char_idem, IH.
Qed.

Section InitFacts.

Variable verify_type : pyobj -> string -> bool -> bool -> result unit.
Variable super_init : result unit.

Lemma check_Ok {A} (r : result unit) (k : result A) (a : A) :
  check r k = Ok a -> k = Ok a.
Proof. destruct r; [done | discriminate]. Qed.

Lemma entries_Ok (fields es : list field) :
  entries verify_type fields = Ok es ->
  es = map entry_of fields
  /\ Forall (fun f => is_Some (TYPE_MAP !! f.1.1.2)) es.
Proof.
  revert es. induction fields as [|[[[nullable ft] name] tmpl] fields IH];
    intros es; simpl.
  - intros [= <-]. split; [done | constructor].
  - intros H. do 4 apply check_Ok in H.
    destruct (TYPE_MAP !! lower ft) as [t|] eqn:Et; [|discriminate].
    destruct (entries verify_type fields) as [es'|]; [|discriminate].
    injection H as <-. destruct (IH es' eq_refl) as [-> Hall].
    split; [done|]. constructor; [|done]. simpl. by rewrite Et.
Qed.

Lemma normalized_Ok (command_type : option str) (u : str) :
  normalized command_type = Ok u ->
  (u = lit "INSERT" \/ u = lit "UPDATE")
  /\ upper (default (lit "INSERT") command_type) = Some u.
Proof.
  destruct command_type as [s|]; simpl.
  - destruct (upper s) as [v|]; [|discriminate].
    destruct (bool_decide _) eqn:E; [|discriminate]. intros [= <-].
    apply bool_decide_eq_true_1 in E. split; [|done].
    apply elem_of_cons in E as [->|E]; [by left|].
    apply list_elem_of_singleton in E as ->. by right.
  - intros [= <-]. split; [by left | reflexivity].
Qed.

Lemma init_establishes_aux (connection : pyobj) (table : str)
    (fields : list field) (command_type : option str) (self : notifier) :
  __init__ verify_type super_init connection table fields command_type
  = Ok self ->
  _table self = table
  /\ (_command_type self = lit "INSERT" \/ _command_type self = lit "UPDATE")
  /\ upper (default (lit "INSERT") command_type) = Some (_command_type self)
  /\ _fields self = map entry_of fields
  /\ Forall (fun f => is_Some (TYPE_MAP !! f.1.1.2)) (_fields self).
Proof.
  unfold __init__. intros H. do 3 apply check_Ok in H.
  destruct (normalized command_type) as [u|] eqn:Eu; [|discriminate].
  destruct (entries verify_type fields) as [es|] eqn:Ee; [|discriminate].
  apply check_Ok in H. injection H as <-. simpl.
  apply normalized_Ok in Eu as [Hu Hup]. apply entries_Ok in Ee as [-> Hall].
  auto.
Qed.

(** A notifier that [__init__] has built has the given table, the command
    type INSERT or UPDATE (the given one in upper case, INSERT when none
    is given), and the given fields with their types in lower case, each
    type a key of [TYPE_MAP]. *)
Theorem init_establishes (connection : pyobj) (table : str)
    (fields : list field) (command_type : option str) (self : notifier) :
  __init__ verify_type super_init connection table fields command_type
  = Ok self ->
  _table self = table
  /\ (_command_type self = lit "INSERT" \/ _command_type self = lit "UPDATE")
  /\ upper (default (lit "INSERT") command_type) = Some (_command_type self)
  /\ _fields self = map entry_of fields
  /\ Forall (fun f => is_Some (TYPE_MAP !! f.1.1.2)) (_fields self).
Proof. apply init_establishes_aux. Qed.

(** A command type that is neither INSERT nor UPDATE in upper case makes
    [__init__] raise, whatever else it is given. *)
Theorem init_rejects_command_type (connection : pyobj) (table s : str)
    (fields : list field) :
  upper s <> Some (lit "INSERT") -> upper s <> Some (lit "UPDATE") ->
  exists e, __init__ verify_type super_init connection table fields (Some s)
            = Err e.
Proof.
  intros Hi Hu. unfold __init__, check.
  destruct (verify_type connection _ _ _); [|eauto].
  destruct (verify_type (PyStr s) _ _ _); [|eauto].
  destruct (verify_type (PyStr table) _ _ _); [|eauto].
  unfold normalized. destruct (upper s) as [u|]; [|eauto].
  rewrite bool_decide_eq_false_2; [eauto|].
  intros [->|E]%elem_of_cons; [done|].
  apply list_elem_of_singleton in E as ->. done.
Qed.

End InitFacts.

Section Constructed.

Variable verify_type : pyobj -> string -> bool -> bool -> result unit.
Variable super_init : result unit.
Variable L : library.
Variable kwargs : gmap str str.

(** In a call of a notifier that [__init__] has built, the lookup of a
    field's type in [TYPE_MAP] never fails: a field without value owes its
    exception to the interpolation of its template or to the parser of its
    type. *)
Theorem constructed_field_fails_in_library (connection : pyobj) (table : str)
    (fields : list field) (command_type : option str) (self : notifier)
    (f : field) (e : exn) :
  __init__ verify_type super_init connection table fields command_type
  = Ok self ->
  f ∈ _fields self ->
  field_literal L kwargs f = Err e ->
  format_map L (f.2) kwargs = Err e
  \/ exists value_str sql_type,
       format_map L (f.2) kwargs = Ok value_str
       /\ TYPE_MAP !! f.1.1.2 = Some sql_type
       /\ TYPE_PARSER_MAP L sql_type value_str = Err e.
Proof.
  intros (_ & _ & _ & _ & Hall)%(init_establishes_aux verify_type super_init) Hin.
  rewrite Forall_forall in Hall. specialize (Hall f Hin).
  destruct f as [[[nullable ft] name] tmpl]. simpl in *.
  unfold field_literal. destruct (format_map L tmpl kwargs) as [v|e']; [|intros [= ->]; by left].
  destruct (null_override nullable v); [discriminate|].
  destruct Hall as [t Ht]. rewrite Ht. unfold parsed.
  destruct (TYPE_PARSER_MAP L t v) eqn:Ep; [discriminate|].
  intros [= <-]. right. eauto.
Qed.

End Constructed.

(** ** The field list of [load_config_section] *)

Lemma parse_IndexError_inv (line : str) :
  _parse_field_mapping_line line = Err IndexError -> strip line = [].
Proof.
  unfold _parse_field_mapping_line, nullable_prefix.
  destruct (split (strip line) !! 0%nat) as [tok|] eqn:E.
  - destruct (bool_decide _); intros H%finish_Err; by destruct H.
  - intros _. unfold split in E.
    destruct (split_from [] (strip line)) eqn:E'; [|discriminate].
    apply split_nil_inv in E' as [_ E']. by apply strip_space_nil.
Qed.

Lemma parse_lines_Err (lines : list str) (e : exn) :
  parse_lines lines = Err e ->
  exists line, line ∈ lines /\ strip line <> []
               /\ _parse_field_mapping_line line = Err e.
Proof.
  induction lines as [|line lines IH]; simpl; [discriminate|].
  destruct (truthy (strip line)) eqn:Et.
  - destruct (_parse_field_mapping_line line) as [f|e'] eqn:Ep.
    + destruct (parse_lines lines) as [fs|e'']; [discriminate|].
      intros [= <-]. destruct (IH eq_refl) as (l & Hin & Hl).
      exists l. split; [by right | done].
    + intros [= <-]. exists line. repeat split; [by left | | done].
      intros E. now rewrite E in Et.
  - intros (l & Hin & Hl)%IH. exists l. split; [by right | done].
Qed.

(** Blank lines of the field mapping are skipped before they are parsed,
    so the [IndexError] of blank lines cannot come out of the field list:
    when the list fails, one of its lines that is not blank was rejected by
    an assertion of the scanner, and that is the exception raised. *)
Theorem field_list_fails_by_assertion (field_mapping : str) (e : exn) :
  field_list field_mapping = Err e ->
  exists line,
    line ∈ splitlines field_mapping /\ strip line <> []
    /\ _parse_field_mapping_line line = Err e
    /\ (e = AssertionError (Malformed_entry (strip line))
        \/ e = AssertionError Type_not_in_TYPE_MAP).
Proof.
  intros (line & Hin & Hne & Hp)%parse_lines_Err.
  exists line. repeat split; try done.
  unfold _parse_field_mapping_line, nullable_prefix in Hp.
  destruct (split (strip line) !! 0%nat) as [tok|] eqn:E.
  - destruct (bool_decide _); apply finish_Err_inv in Hp as [-> | ->];
      rewrite ?strip_idem; auto.
  - exfalso. apply Hne. unfold split in E.
    destruct (split_from [] (strip line)) eqn:E'; [|discriminate].
    apply split_nil_inv in E' as [_ E']. by apply strip_space_nil.
Qed.

Lemma parse_lines_Ok (lines : list str) (fs : list field) :
  parse_lines lines = Ok fs ->
  Forall2 (fun line f => _parse_field_mapping_line line = Ok f)
    (List.filter (fun line => truthy (strip line)) lines) fs.
Proof.
  revert fs. induction lines as [|line lines IH]; intros fs; simpl.
  - intros [= <-]. constructor.
  - destruct (truthy (strip line)); [|apply IH].
    destruct (_parse_field_mapping_line line) as [f|] eqn:Ep; [|discriminate].
    destruct (parse_lines lines) as [fs'|]; [|discriminate].
    intros [= <-]. constructor; [done | by apply IH].
Qed.

(** A field list that is built has one field per line that is not blank,
    in the order of the lines, each the parse of its line. *)
Theorem field_list_follows_lines (field_mapping : str) (fs : list field) :
  field_list field_mapping = Ok fs ->
  Forall2 (fun line f => _parse_field_mapping_line line = Ok f)
    (List.filter (fun line => truthy (strip line)) (splitlines field_mapping))
    fs.
Proof. apply parse_lines_Ok. Qed.

(** What the scanner returns is an entry as [__init__] stores it. *)
Lemma parse_Ok_entry (line : str) (f : field) :
  _parse_field_mapping_line line = Ok f ->
  entry_of f = f /\ is_Some (TYPE_MAP !! f.1.1.2)
  /\ f.1.1.2 <> [] /\ f.1.2 <> [].
Proof.
  destruct f as [[[b ty] name] tmpl]. unfold _parse_field_mapping_line.
  destruct (nullable_prefix (strip line)) as [[b' body]|]; [|discriminate].
  intros H. pose proof (finish_Ok _ _ _ _ _ _ _ H) as (_ & Hk & Hn & _).
  apply finish_Ok_inv in H as (_ & Hty & Hne & _).
  simpl. repeat split; try done.
  rewrite Hty at 1. rewrite lower_idem. now rewrite <- Hty.
Qed.

Section ConfiguredNotifier.

Variable verify_type : pyobj -> string -> bool -> bool -> result unit.
Hypothesis verify_type_ok : verifies verify_type.

Lemma entries_of_parsed (fs : list field) :
  Forall (fun f => exists line, _parse_field_mapping_line line = Ok f) fs ->
  entries verify_type fs = Ok fs.
Proof.
  destruct verify_type_ok as (Hb & Hs & _).
  induction 1 as [|[[[b ty] name] tmpl] fs [line Hl] _ IH]; [done|].
  apply parse_Ok_entry in Hl as (He & Hk & Hty & Hn). simpl in *.
  rewrite Hb, !Hs by done. simpl.
  injection He as He. rewrite He. destruct Hk as [t ->]. now rewrite IH.
Qed.

(** The fields of a field list are stored by [__init__] as they are: with
    a table name that is not empty, a connection and base classes that
    raise nothing, the notifier built from a field mapping holds exactly
    the parsed fields. *)
Theorem init_stores_field_list (connection : pyobj) (table field_mapping : str)
    (fs : list field) (command_type : option str) (u : str) :
  verify_type connection "sql_connection" false false = Ok tt ->
  table <> [] ->
  normalized command_type = Ok u ->
  field_list field_mapping = Ok fs ->
  __init__ verify_type (Ok tt) connection table fs command_type
  = Ok (Notifier table fs u).
Proof.
  intros Hc Ht Hu Hf. unfold __init__. rewrite Hc. simpl.
  destruct verify_type_ok as (Hb & Hs & Hnone).
  assert (Hv : verify_type
                 match command_type with Some s => PyStr s | None => PyNone end
                 "str" true true = Ok tt).
  { destruct command_type as [s|]; [|apply Hnone]. apply Hs. intros _ ->.
    vm_compute in Hu. discriminate. }
  rewrite Hv, Hs by done. simpl. rewrite Hu.
  rewrite entries_of_parsed; [done|].
  apply parse_lines_Ok in Hf. clear -Hf.
  induction Hf as [|line f ls fs Hp _ IH]; constructor; eauto.
Qed.

End ConfiguredNotifier.

(** ** The parsers and the nullable flag *)

(** The parsers defined in the module return values of the Python type
    that goes with the declared type: a [str] for STRING, whatever
    [literal_eval] made of the string, an [int] for INTEGER, [None] for
    NULL. *)
Theorem parser_value_matches_type (L : library) (t : LiteralTypes)
    (s : str) (v : pyobj) :
  TYPE_PARSER_MAP L t s = Ok v ->
  match t with
  | STRING => exists r, v = PyStr r
  | INTEGER => exists z, v = PyInt z
  | NULL => v = PyNone
  | _ => True
  end.
Proof.
  destruct t; simpl; try done.
  - unfold int_parser. destruct (builtins.int _ _); [|discriminate].
    intros [= <-]. eauto.
  - unfold _null_parser. destruct (bool_decide _); [|discriminate].
    by intros [= <-].
  - unfold _string_parser.
    destruct (literal_eval L s) as [[]|[]]; intros [= <-]; eauto.
Qed.

Lemma parser_value_matches_type_witness :
  exists r, PyStr (lit "123") = PyStr r.
Proof.
  apply (parser_value_matches_type cpython STRING (lit "123")). reflexivity.
Defined.

(** For a field whose declared type is NULL the nullable flag changes
    nothing: the strings that the flag turns into a null are strings that
    [_null_parser] turns into the same null. *)
Theorem null_type_ignores_nullable (L : library) (kwargs : gmap str str)
    (ft name tmpl : str) :
  TYPE_MAP !! ft = Some NULL ->
  field_literal L kwargs (true, ft, name, tmpl)
  = field_literal L kwargs (false, ft, name, tmpl).
Proof.
  intros Ht. unfold field_literal, null_override. rewrite Ht.
  destruct (format_map L tmpl kwargs) as [v|e]; [|done]. simpl.
  destruct (bool_decide (lower v ∈ _)) eqn:E; [|done].
  apply bool_decide_eq_true_1 in E.
  unfold parsed, TYPE_PARSER_MAP, _null_parser.
  rewrite bool_decide_eq_true_2; [done|].
  repeat (apply elem_of_cons in E as [-> | E]); try set_solver.
Qed.

Lemma null_type_ignores_nullable_witness :
  field_literal cpython (notification "X" "None")
    (true, lit "null", lit "Count", lit "{count}")
  = field_literal cpython (notification "X" "None")
      (false, lit "null", lit "Count", lit "{count}").
Proof. apply null_type_ignores_nullable. reflexivity. Defined.

(** ** [LogNotifier.load_config_value] *)

Import LogNotifier.

Lemma split_on_length (sep : ascii) (s cur : str) :
  length (split_on sep cur s) = S (occurrences sep s).
Proof.
  revert cur. induction s as [|c s IH]; intros cur; [done|].
  unfold occurrences in *. simpl.
  destruct (bool_decide (c = sep)); simpl; now rewrite IH.
Qed.

Lemma split_on_absent (sep : ascii) (s cur : str) :
  sep ∉ s -> split_on sep cur s = [cur ++ s].
Proof.
  revert cur. induction s as [|c s IH]; intros cur H; simpl.
  - now rewrite app_nil_r.
  - apply not_elem_of_cons in H as [Hc H].
    rewrite bool_decide_eq_false_2 by done.
    rewrite IH by done. now rewrite <- app_assoc.
Qed.

Lemma split_on_first (sep : ascii) (a b cur : str) :
  sep ∉ a -> split_on sep cur (a ++ sep :: b) = (cur ++ a) :: split_on sep [] b.
Proof.
  revert cur. induction a as [|c a IH]; intros cur H; simpl.
  - rewrite bool_decide_eq_true_2 by done. now rewrite app_nil_r.
  - apply not_elem_of_cons in H as [Hc H].
    rewrite bool_decide_eq_false_2 by done.
    rewrite IH by done. now rewrite <- app_assoc.
Qed.

Lemma digits_no_at (ds : str) : forallb is_digit ds = true -> "@" ∉ ds.
Proof.
  induction ds as [|c ds IH]; simpl; [intros _; apply not_elem_of_nil|].
  intros [Hc Hds]%andb_prop. apply not_elem_of_cons. split; [|auto].
  intros <-. discriminate.
Qed.

Lemma isdigit_char_digit (l : str) :
  forallb is_digit l = true -> forallb isdigit_char l = true.
Proof.
  induction l as [|c l IH]; [done|]. simpl.
  intros [Hc Hl]%andb_prop. unfold isdigit_char at 1.
  rewrite Hc. simpl. auto.
Qed.

Lemma isdigit_digits (ds : str) :
  ds <> [] -> forallb is_digit ds = true -> isdigit ds = true.
Proof.
  intros Hne H. unfold isdigit. rewrite isdigit_char_digit by done.
  destruct ds; [congruence|done].
Qed.

(** [int] does not read the superscript digits. *)
Lemma superscript_not_read (c : ascii) :
  superscript_digit c = true -> int_alphabet c = false.
Proof.
  destruct c as [[] [] [] [] [] [] [] []]; intros H;
    (reflexivity || discriminate).
Qed.

Lemma int_superscript (max_str_digits : nat) (s : str) :
  existsb superscript_digit s = true ->
  int max_str_digits (map Latin1 s) = Err ValueError.
Proof.
  intros H. apply int_rejects.
  induction s as [|c s IH]; [discriminate|]. simpl in *.
  apply orb_prop in H as [H|H].
  - now rewrite superscript_not_read.
  - rewrite IH by done. apply andb_false_r.
Qed.

Section LoadFacts.

Variable verify_type : pyobj -> string -> bool -> bool -> result unit.
Variable super_init : result unit.
Variable logging_getattr : str -> result pyobj.
Variable getLogger : str -> pyobj.
Variable max_str_digits : nat.
Variable config_loader : pyobj.

Hypothesis loader_ok :
  verify_type config_loader "ConfigLoader" false false = Ok tt.

(** A value with two or more [@] cannot be unpacked into a name and a
    level: [load_config_value] raises [ValueError], and builds nothing. *)
Theorem load_config_value_two_separators (value : str) :
  verify_type (PyStr value) "str" true false = Ok tt ->
  (2 <= occurrences "@" value)%nat ->
  load_config_value verify_type super_init logging_getattr getLogger
    max_str_digits config_loader value
  = Err ValueError.
Proof.
  intros Hv Hn. unfold load_config_value. rewrite loader_ok, Hv. simpl.
  assert (Hin : "@" ∈ value).
  { unfold occurrences in Hn. destruct (List.filter _ value) as [|c l] eqn:E;
      [simpl in Hn; lia|].
    assert (Hc : In c (List.filter (fun c => bool_decide (c = "@")) value))
      by (rewrite E; by left).
    apply filter_In in Hc as [Hc1 Hc2]. apply bool_decide_eq_true_1 in Hc2.
    subst c. by apply list_elem_of_In. }
  rewrite bool_decide_eq_true_2 by done.
  pose proof (split_on_length "@" value []) as Hl.
  destruct (split_on "@" [] value) as [|a [|b [|c l]]]; simpl in Hl;
    try reflexivity; lia.
Qed.

(** A value [name@digits] gives a notifier for the logger of that name at
    the level the digits spell in base 10, unless the digits are more than
    the limit of [int] allows: then [ValueError] is raised. *)
Theorem load_config_value_numeric_level (name ds : str) :
  "@" ∉ name -> ds <> [] -> forallb is_digit ds = true ->
  verify_type (PyStr (name ++ "@" :: ds)) "str" true false = Ok tt ->
  (exceeds_limit max_str_digits (length ds) = true ->
   load_config_value verify_type super_init logging_getattr getLogger
     max_str_digits config_loader (name ++ "@" :: ds)
   = Err ValueError)
  /\ (exceeds_limit max_str_digits (length ds) = false ->
      (forall s, getLogger name <> PyStr s) ->
      verify_type (getLogger name) "Logger" false false = Ok tt ->
      verify_type (PyInt (decimal_value 0 ds)) "int" false false = Ok tt ->
      super_init = Ok tt ->
      load_config_value verify_type super_init logging_getattr getLogger
        max_str_digits config_loader (name ++ "@" :: ds)
      = Ok (Log_notifier (getLogger name) (PyInt (decimal_value 0 ds)))).
Proof.
  intros Hname Hne Hds Hv.
  unfold load_config_value. rewrite loader_ok, Hv. simpl.
  rewrite bool_decide_eq_true_2 by (apply elem_of_app; right; by left).
  rewrite split_on_first by done. simpl.
  rewrite split_on_absent by now apply digits_no_at. simpl.
  unfold level_of. rewrite isdigit_digits by done.
  rewrite int_digit_string by done.
  split; intros Hlim; rewrite Hlim; [done|].
  intros Hlog Hvl Hvi Hsi. unfold LogNotifier.__init__.
  destruct (getLogger name) eqn:El; try (by destruct (Hlog s));
    rewrite Hvl; simpl; rewrite Hvi; simpl; now rewrite Hsi.
Qed.

(** A level that [isdigit] accepts and that holds a superscript two, three
    or one is handed to [int], which raises [ValueError]: these are digits
    but not decimal digits. *)
Theorem load_config_value_superscript_level (name level : str) :
  "@" ∉ name -> "@" ∉ level ->
  isdigit level = true -> existsb superscript_digit level = true ->
  verify_type (PyStr (name ++ "@" :: level)) "str" true false = Ok tt ->
  load_config_value verify_type super_init logging_getattr getLogger
    max_str_digits config_loader (name ++ "@" :: level)
  = Err ValueError.
Proof.
  intros Hname Hlevel Hd Hs Hv.
  unfold load_config_value. rewrite loader_ok, Hv. simpl.
  rewrite bool_decide_eq_true_2 by (apply elem_of_app; right; by left).
  rewrite split_on_first by done. simpl.
  rewrite split_on_absent by done. simpl.
  unfold level_of. rewrite Hd. now rewrite int_superscript.
Qed.

(** Level names are read without regard to case: two values that differ
    only in the case of a level that is no number load the same notifier,
    or fail alike. *)
Theorem load_config_value_level_case (name l1 l2 u : str) :
  "@" ∉ name -> "@" ∉ l1 -> "@" ∉ l2 ->
  isdigit l1 = false -> isdigit l2 = false ->
  upper l1 = Some u -> upper l2 = Some u ->
  verify_type (PyStr (name ++ "@" :: l1)) "str" true false = Ok tt ->
  verify_type (PyStr (name ++ "@" :: l2)) "str" true false = Ok tt ->
  load_config_value verify_type super_init logging_getattr getLogger
    max_str_digits config_loader (name ++ "@" :: l1)
  = load_config_value verify_type super_init logging_getattr getLogger
      max_str_digits config_loader (name ++ "@" :: l2).
Proof.
  intros Hname H1 H2 Hd1 Hd2 Hu1 Hu2 Hv1 Hv2.
  unfold load_config_value. rewrite loader_ok, Hv1, Hv2. simpl.
  rewrite !bool_decide_eq_true_2 by (apply elem_of_app; right; by left).
  rewrite !split_on_first by done. simpl.
  rewrite !split_on_absent by done. simpl.
  unfold level_of. now rewrite Hd1, Hd2, Hu1, Hu2.
Qed.

End LoadFacts.

(** ** The further facts at concrete inputs *)

Lemma call_executes_the_assignments_witness :
  let c := Command (lit "Events") Insert
             [ (lit "Name", V (PyStr (lit "X")) STRING);
               (lit "Count", V (PyInt 3) INTEGER) ] in
  conn (__call__ cpython (notification "X" "3") events None fresh).1
  = Connection [c] (fun _ _ => None)
  /\ (__call__ cpython (notification "X" "3") events None fresh).2 = Ok tt.
Proof.
  apply (call_executes_the_assignments cpython (notification "X" "3") events
           fresh [ (lit "Name", V (PyStr (lit "X")) STRING);
                   (lit "Count", V (PyInt 3) INTEGER) ]).
  repeat constructor; vm_compute; reflexivity.
Defined.

Lemma call_raises_the_first_failure_witness :
  conn (__call__ cpython {[ lit "name" := lit "X" ]} events None fresh).1
  = conn fresh
  /\ (__call__ cpython {[ lit "name" := lit "X" ]} events None fresh).2
     = Err (KeyError (lit "count")).
Proof.
  apply (call_raises_the_first_failure cpython {[ lit "name" := lit "X" ]}
           events fresh [(false, lit "string", lit "Name", lit "{name}")] []
           (true, lit "integer", lit "Count", lit "{count}")).
  - reflexivity.
  - constructor; [|constructor].
    exists (V (PyStr (lit "X")) STRING). vm_compute. reflexivity.
  - vm_compute. reflexivity.
Defined.

Lemma init_establishes_witness :
  let self := Notifier (lit "Events")
                [(false, lit "string", lit "Name", lit "{name}")]
                (lit "UPDATE") in
  _table self = lit "Events"
  /\ (_command_type self = lit "INSERT" \/ _command_type self = lit "UPDATE")
  /\ upper (default (lit "INSERT") (Some (lit "update")))
     = Some (_command_type self)
  /\ _fields self = map entry_of [(false, lit "STRING", lit "Name", lit "{name}")]
  /\ Forall (fun f => is_Some (TYPE_MAP !! f.1.1.2)) (_fields self).
Proof.
  apply (init_establishes (fun _ _ _ _ => Ok tt) (Ok tt)
           (PyObject (lit "sql_connection") []) (lit "Events")
           [(false, lit "STRING", lit "Name", lit "{name}")]
           (Some (lit "update"))).
  vm_compute. reflexivity.
Defined.

Lemma init_rejects_command_type_witness :
  exists e,
    SQLNotifierSetup.__init__ (fun _ _ _ _ => Ok tt) (Ok tt)
      (PyObject (lit "sql_connection") []) (lit "Events")
      [(false, lit "string", lit "Name", lit "{name}")] (Some (lit "delete"))
    = Err e.
Proof.
  apply init_rejects_command_type; vm_compute; discriminate.
Defined.

Lemma constructed_field_fails_in_library_witness :
  format_map cpython (lit "{count}") {[ lit "name" := lit "X" ]}
  = Err (KeyError (lit "count"))
  \/ exists value_str sql_type,
       format_map cpython (lit "{count}") {[ lit "name" := lit "X" ]}
       = Ok value_str
       /\ TYPE_MAP !! lit "integer" = Some sql_type
       /\ TYPE_PARSER_MAP cpython sql_type value_str
          = Err (KeyError (lit "count")).
Proof.
  apply (constructed_field_fails_in_library (fun _ _ _ _ => Ok tt) (Ok tt)
           cpython {[ lit "name" := lit "X" ]}
           (PyObject (lit "sql_connection") []) (lit "Events")
           (_fields events) None events
           (true, lit "integer", lit "Count", lit "{count}")).
  - vm_compute. reflexivity.
  - apply (bool_decide_unpack _). vm_compute. exact I.
  - vm_compute. reflexivity.
Defined.

Lemma field_list_fails_by_assertion_witness :
  exists line,
    line ∈ splitlines (lit "string Name: {name}" ++ "010" :: "010" :: lit "oops")
    /\ strip line <> []
    /\ _parse_field_mapping_line line
       = Err (AssertionError (Malformed_entry (lit "oops")))
    /\ (AssertionError (Malformed_entry (lit "oops"))
        = AssertionError (Malformed_entry (strip line))
        \/ AssertionError (Malformed_entry (lit "oops"))
           = AssertionError Type_not_in_TYPE_MAP).
Proof.
  apply field_list_fails_by_assertion. vm_compute. reflexivity.
Defined.

Lemma field_list_follows_lines_witness :
  Forall2 (fun line f => _parse_field_mapping_line line = Ok f)
    (List.filter (fun line => truthy (strip line))
       (splitlines (lit "string Name: {name}" ++ "010" :: lit "  " ++ "010"
                    :: lit "nullable integer Count: {count}")))
    (_fields events).
Proof.
  apply field_list_follows_lines. vm_compute. reflexivity.
Defined.

Lemma init_stores_field_list_witness :
  SQLNotifierSetup.__init__ (fun _ _ _ _ => Ok tt) (Ok tt)
    (PyObject (lit "sql_connection") []) (lit "Events") (_fields events)
    (Some (lit "insert"))
  = Ok events.
Proof.
  apply (init_stores_field_list (fun _ _ _ _ => Ok tt)
           ltac:(repeat split; reflexivity)
           (PyObject (lit "sql_connection") []) (lit "Events")
           (lit "string Name: {name}" ++ "010"
            :: lit "nullable integer Count: {count}")).
  - reflexivity.
  - discriminate.
  - vm_compute. reflexivity.
  - vm_compute. reflexivity.
Defined.

Lemma load_config_value_two_separators_witness :
  load_config_value (fun _ _ _ _ => Ok tt) (Ok tt)
    (fun _ => Err (OtherError (lit "AttributeError")))
    (fun name => PyObject (lit "Logger") name) 4300
    (PyObject (lit "ConfigLoader") []) (lit "app@10@20")
  = Err ValueError.
Proof.
  apply load_config_value_two_separators.
  - reflexivity.
  - reflexivity.
  - vm_compute. lia.
Defined.

Lemma load_config_value_numeric_level_witness :
  load_config_value (fun _ _ _ _ => Ok tt) (Ok tt)
    (fun _ => Err (OtherError (lit "AttributeError")))
    (fun name => PyObject (lit "Logger") name) 4300
    (PyObject (lit "ConfigLoader") []) (lit "app@30")
  = Ok (Log_notifier (PyObject (lit "Logger") (lit "app")) (PyInt 30))
  /\ load_config_value (fun _ _ _ _ => Ok tt) (Ok tt)
       (fun _ => Err (OtherError (lit "AttributeError")))
       (fun name => PyObject (lit "Logger") name) 4300
       (PyObject (lit "ConfigLoader") []) (lit "app@" ++ repeat "0" 4301)
     = Err ValueError.
Proof.
  split.
  - apply (load_config_value_numeric_level (fun _ _ _ _ => Ok tt) (Ok tt)
             (fun _ => Err (OtherError (lit "AttributeError")))
             (fun name => PyObject (lit "Logger") name) 4300
             (PyObject (lit "ConfigLoader") []) eq_refl (lit "app") (lit "30")).
    + intros H. apply (bool_decide_pack _) in H. vm_compute in H. exact H.
    + discriminate.
    + reflexivity.
    + reflexivity.
    + reflexivity.
    + discriminate.
    + reflexivity.
    + reflexivity.
    + reflexivity.
  - apply (load_config_value_numeric_level (fun _ _ _ _ => Ok tt) (Ok tt)
             (fun _ => Err (OtherError (lit "AttributeError")))
             (fun name => PyObject (lit "Logger") name) 4300
             (PyObject (lit "ConfigLoader") []) eq_refl (lit "app")
             (repeat "0" 4301)).
    + intros H. apply (bool_decide_pack _) in H. vm_compute in H. exact H.
    + discriminate.
    + vm_compute. reflexivity.
    + reflexivity.
    + vm_compute. reflexivity.
Defined.

Lemma load_config_value_superscript_level_witness :
  load_config_value (fun _ _ _ _ => Ok tt) (Ok tt)
    (fun _ => Err (OtherError (lit "AttributeError")))
    (fun name => PyObject (lit "Logger") name) 4300
    (PyObject (lit "ConfigLoader") []) (lit "app" ++ ["@"; "1"; "178"])
  = Err ValueError.
Proof.
  apply (load_config_value_superscript_level (fun _ _ _ _ => Ok tt) (Ok tt)
           (fun _ => Err (OtherError (lit "AttributeError")))
           (fun name => PyObject (lit "Logger") name) 4300
           (PyObject (lit "ConfigLoader") []) eq_refl (lit "app") ["1"; "178"]).
  - intros H. apply (bool_decide_pack _) in H. vm_compute in H. exact H.
  - intros H. apply (bool_decide_pack _) in H. vm_compute in H. exact H.
  - reflexivity.
  - reflexivity.
  - reflexivity.
Defined.

Lemma load_config_value_level_case_witness :
  let logging_getattr (name : str) :=
    if bool_decide (name = lit "DEBUG") then Ok (PyInt 10)
    else Err (OtherError (lit "AttributeError")) in
  load_config_value (fun _ _ _ _ => Ok tt) (Ok tt) logging_getattr
    (fun name => PyObject (lit "Logger") name) 4300
    (PyObject (lit "ConfigLoader") []) (lit "app@debug")
  = load_config_value (fun _ _ _ _ => Ok tt) (Ok tt) logging_getattr
      (fun name => PyObject (lit "Logger") name) 4300
      (PyObject (lit "ConfigLoader") []) (lit "app@Debug").
Proof.
  intros logging_getattr.
  apply (load_config_value_level_case (fun _ _ _ _ => Ok tt) (Ok tt)
           logging_getattr (fun name => PyObject (lit "Logger") name) 4300
           (PyObject (lit "ConfigLoader") []) eq_refl
           (lit "app") (lit "debug") (lit "Debug") (lit "DEBUG")).
  - intros H. apply (bool_decide_pack _) in H. vm_compute in H. exact H.
  - intros H. apply (bool_decide_pack _) in H. vm_compute in H. exact H.
  - intros H. apply (bool_decide_pack _) in H. vm_compute in H. exact H.
  - reflexivity.
  - reflexivity.
  - reflexivity.
  - reflexivity.
  - reflexivity.
  - reflexivity.
Defined.
